(** * directories_and_files.py: an interactive file manager

    A shallow embedding of [FileManager] (directory navigation, file
    selection, bulk rename / delete / size report) together with the
    properties its specification states about it.

    Conventions of the embedding.
    - Text is [string]; the string methods used by the program ([strip],
      [lower], [isdigit], [int]) are given on their ASCII fragment, bytes
      above 127 being neither space, digit nor cased.
    - An absolute POSIX path is the list of its components below [/]; the
      program only handles absolute paths, because the start directory is
      resolved before anything else happens.
    - The file system is a finite map from canonical paths to inodes.
    - A method of [FileManager] is a function on a [World]: the file system,
      the one list object holding the selection, the lines still to be read
      from the terminal, and what has been printed so far.  It either
      returns, or raises a Python exception. *)

From Stdlib Require Import ZArith String Ascii DecimalString Lia OrderedTypeEx.
From stdpp Require Import gmap strings list sorting.

Open Scope Z_scope.

(** ** Exceptions and outcomes *)

(** The exception classes the program can meet.  Every class but
    [EOFError] and [OverflowError] derives from [OSError]. *)
Inductive exn :=
  | FileNotFoundError
  | PermissionError
  | IsADirectoryError
  | NotADirectoryError
  | OSError
  | EOFError
  | OverflowError.

#[global] Instance exn_eq_dec : EqDecision exn.
Proof. solve_decision. Defined.

(** [isinstance(e, OSError)] *)
Definition is_OSError (e : exn) : bool :=
  match e with
  | EOFError | OverflowError => false
  | _ => true
  end.

(** How a call ends: with a value, with an exception, or (for the bounded
    unrolling of a [while True] loop only) with the bound reached. *)
Inductive outcome (A : Type) :=
  | Ret (a : A)
  | Raise (e : exn)
  | OutOfFuel.
Arguments Ret {A} a.
Arguments Raise {A} e.
Arguments OutOfFuel {A}.

(** ** Strings *)

Module Str.

Definition code (c : ascii) : N := N_of_ascii c.

(** [str.isspace] on one ASCII character: tab, line feed, vertical tab,
    form feed, carriage return, the four separators 28..31 and space. *)
Definition is_space (c : ascii) : bool :=
  let n := code c in
  ((9 <=? n) && (n <=? 13) || (28 <=? n) && (n <=? 32))%N.

Definition is_digit (c : ascii) : bool :=
  let n := code c in ((48 <=? n) && (n <=? 57))%N.

Definition is_upper (c : ascii) : bool :=
  let n := code c in ((65 <=? n) && (n <=? 90))%N.

Definition lower_char (c : ascii) : ascii :=
  if is_upper c then ascii_of_N (code c + 32) else c.

Fixpoint lstrip (s : string) : string :=
  match s with
  | String c s' => if is_space c then lstrip s' else s
  | EmptyString => EmptyString
  end.

(** Drops trailing white space: a character is kept when it is not a
    space or when something is kept after it. *)
Fixpoint rstrip (s : string) : string :=
  match s with
  | String c s' =>
      match rstrip s' with
      | EmptyString => if is_space c then EmptyString else String c EmptyString
      | r => String c r
      end
  | EmptyString => EmptyString
  end.

(** [s.strip()] *)
Definition strip (s : string) : string := rstrip (lstrip s).

(** [s.lower()] *)
Fixpoint lower (s : string) : string :=
  match s with
  | String c s' => String (lower_char c) (lower s')
  | EmptyString => EmptyString
  end.

Fixpoint all_digits (s : string) : bool :=
  match s with
  | String c s' => is_digit c && all_digits s'
  | EmptyString => true
  end.

(** [s.isdigit()]: at least one character and only digits. *)
Definition isdigit (s : string) : bool :=
  match s with
  | EmptyString => false
  | _ => all_digits s
  end.

Fixpoint int_acc (acc : Z) (s : string) : Z :=
  match s with
  | String c s' => int_acc (10 * acc + (Z.of_N (code c) - 48)) s'
  | EmptyString => acc
  end.

(** [int(s)] for a string of digits. *)
Definition int (s : string) : Z := int_acc 0 s.

(** [c in s] for a character [c]. *)
Fixpoint contains (c : ascii) (s : string) : bool :=
  match s with
  | String d s' => if decide (c = d) then true else contains c s'
  | EmptyString => false
  end.

(** [any(c in s for c in chars)] *)
Fixpoint any_in (chars s : string) : bool :=
  match chars with
  | String c chars' => contains c s || any_in chars' s
  | EmptyString => false
  end.

(** Decimal numeral of a natural number given as [Z]. *)
Definition of_Z (z : Z) : string :=
  NilZero.string_of_uint (N.to_uint (Z.to_N z)).

End Str.

(** ** Constants *)

Definition BYTES_PER_KB : Z := 1024.

(** The nine reserved characters: less-than, greater-than, colon, double
    quote (character 34), slash, backslash, bar, question mark, star. *)
Definition INVALID_FILENAME_CHARS : string :=
  String "<" (String ">" (String ":" (String (ascii_of_N 34)
    (String "/" (String "\" (String "|" (String "?" (String "*" EmptyString)))))))).

(** ** Numbers: [int] and [float] as [format_file_size] uses them *)

Module Num.

(** Quotient of [a] by [b > 0] rounded to the nearest integer, a tie going
    to the even neighbour. *)
Definition round_half_even (a b : Z) : Z :=
  let q := a / b in
  let r := a mod b in
  if 2 * r <? b then q
  else if b <? 2 * r then q + 1
  else if Z.even q then q else q + 1.

(** The integer nearest to [n] that has a 53-bit significand, ties to
    even: the value of the double nearest to [n] when it is finite. *)
Definition fl53 (n : Z) : Z :=
  let a := Z.abs n in
  if a <? 2 ^ 53 then n
  else
    let e := Z.log2 a - 52 in
    Z.sgn n * (round_half_even a (2 ^ e) * 2 ^ e).

(** A number held by [size_bytes]: a Python [int], or a [float] whose
    value is [m / 2^e] ([m] with a 53-bit significand, [0 <= e]). *)
Inductive number :=
  | PyInt (n : Z)
  | PyFloat (m : Z) (e : Z).

(** [x < BYTES_PER_KB] *)
Definition lt_kb (x : number) : bool :=
  match x with
  | PyInt n => n <? BYTES_PER_KB
  | PyFloat m e => m <? BYTES_PER_KB * 2 ^ e
  end.

(** [x / BYTES_PER_KB] (true division).  Of an [int] it is the correctly
    rounded quotient, [OverflowError] when that is no finite double; of a
    [float] it is an exact change of exponent. *)
Definition truediv_kb (x : number) : outcome number :=
  match x with
  | PyInt n =>
      if 2 ^ 1034 <=? Z.abs (fl53 n) then Raise OverflowError
      else Ret (PyFloat (fl53 n) 10)
  | PyFloat m e => Ret (PyFloat m (e + 10))
  end.

(** The numeral with one decimal of the tenths count [t], with the sign
    [neg]. *)
Definition render_tenths (neg : bool) (t : Z) : string :=
  ((if neg then "-" else EmptyString) +:+ Str.of_Z (t / 10) +:+ "." +:+ Str.of_Z (t mod 10))%string.

(** [f"{x:.1f}"]: an [int] is converted to [float] first
    ([OverflowError] when too large); the double is then written exactly
    rounded to one decimal, ties to even. *)
Definition format_1f (x : number) : outcome string :=
  match x with
  | PyInt n =>
      if 2 ^ 1024 <=? Z.abs (fl53 n) then Raise OverflowError
      else Ret (render_tenths (n <? 0) (10 * Z.abs (fl53 n)))
  | PyFloat m e =>
      Ret (render_tenths (m <? 0) (round_half_even (10 * Z.abs m) (2 ^ e)))
  end.

End Num.

(** ** [format_file_size] *)

(** [return f"{size_bytes:.1f} {unit}"] *)
Definition format_with_unit (x : Num.number) (unit : string) : outcome string :=
  match Num.format_1f x with
  | Ret s => Ret (s +:+ " " +:+ unit)%string
  | Raise e => Raise e
  | OutOfFuel => OutOfFuel
  end.

(** The [for unit in ...] loop, then the final [return]. *)
Fixpoint format_loop (units : list string) (size_bytes : Num.number) : outcome string :=
  match units with
  | unit :: rest =>
      if Num.lt_kb size_bytes then format_with_unit size_bytes unit
      else
        match Num.truediv_kb size_bytes with
        | Ret x => format_loop rest x
        | Raise e => Raise e
        | OutOfFuel => OutOfFuel
        end
  | [] => format_with_unit size_bytes "TB"
  end.

Definition format_file_size (size_bytes : Z) : outcome string :=
  format_loop ["B"; "KB"; "MB"; "GB"]%string (Num.PyInt size_bytes).

(** ** Paths *)

Abbreviation Path := (list string).

(** [p.name]: the last component, empty for the root. *)
Definition name (p : Path) : string := default EmptyString (last p).

(** [p.parent]: the path without its last component; the root is its own
    parent. *)
Definition parent (p : Path) : Path := removelast p.

(** [d / n] for a text [n] without separator: pathlib drops a single dot
    and keeps everything else, a double dot included, as a component. *)
Definition joinpath (d : Path) (n : string) : Path :=
  if decide (n = "."%string) then d else d ++ [n].

(** The order of [sorted] on paths: component by component, each component
    by code point. *)
Fixpoint path_leb (p q : Path) : bool :=
  match p, q with
  | [], _ => true
  | _ :: _, [] => false
  | a :: p', b :: q' =>
      match String.compare a b with
      | Lt => true
      | Gt => false
      | Eq => path_leb p' q'
      end
  end.

Definition path_le (p q : Path) : Prop := path_leb p q = true.

#[global] Instance path_le_dec p q : Decision (path_le p q).
Proof. unfold path_le. apply _. Defined.

(** ** The file system *)

Inductive file_kind :=
  | S_IFREG                        (* regular file *)
  | S_IFDIR                        (* directory *)
  | S_IFLNK (target : Path)        (* symbolic link *)
  | S_IFOTHER.                     (* fifo, socket, device *)

#[global] Instance file_kind_eq_dec : EqDecision file_kind.
Proof. solve_decision. Defined.

(** What the program can observe of an inode.  [readable] and [writable]
    are the permissions of a directory for the user running the program:
    to list it, and to add or remove entries in it. *)
Record inode := Inode {
  kind : file_kind;
  st_size : Z;
  readable : bool;
  writable : bool
}.

Abbreviation FS := (gmap Path inode).

Definition is_dir_kind (k : file_kind) : bool :=
  match k with S_IFDIR => true | _ => false end.

Definition is_reg_kind (k : file_kind) : bool :=
  match k with S_IFREG => true | _ => false end.

Definition is_lnk_kind (k : file_kind) : bool :=
  match k with S_IFLNK _ => true | _ => false end.

Module Posix.

(** Walks the components of a path from [cur]; a double dot needs the
    directory it leaves to exist.  Intermediate components are never
    symbolic links, as every path the program builds starts from a
    resolved directory and descends through real directories. *)
Fixpoint resolve_from (fs : FS) (cur : Path) (comps : list string) : option Path :=
  match comps with
  | [] => Some cur
  | c :: rest =>
      if decide (c = ".."%string) then
        match fs !! cur with
        | Some i => if is_dir_kind (kind i) then resolve_from fs (parent cur) rest else None
        | None => None
        end
      else resolve_from fs (cur ++ [c]) rest
  end.

Definition resolve (fs : FS) (p : Path) : option Path := resolve_from fs [] p.

(** [lstat]: the inode at a path, a final symbolic link not followed. *)
Definition lstat (fs : FS) (p : Path) : option inode :=
  match resolve fs p with
  | Some k => fs !! k
  | None => None
  end.

(** Follows final symbolic links, at most [fuel] of them. *)
Fixpoint follow (fuel : nat) (fs : FS) (p : Path) : exn + inode :=
  match lstat fs p with
  | None => inl FileNotFoundError
  | Some i =>
      match kind i with
      | S_IFLNK t =>
          match fuel with
          | O => inl OSError
          | S fuel' => follow fuel' fs t
          end
      | _ => inr i
      end
  end.

(** [stat]: as Linux does, gives up with ELOOP after 40 links. *)
Definition stat (fs : FS) (p : Path) : exn + inode := follow 40 fs p.

Definition is_child_of (d p : Path) : Prop := p ≠ [] ∧ parent p = d.

#[global] Instance is_child_of_dec d p : Decision (is_child_of d p).
Proof. unfold is_child_of. apply _. Defined.

(** The entries of directory [d], in the order the map enumerates them. *)
Definition children (fs : FS) (d : Path) : list Path :=
  filter (is_child_of d) (map_to_list fs).*1.

Definition scandir (fs : FS) (d : Path) : exn + list Path :=
  match stat fs d with
  | inl e => inl e
  | inr i =>
      if is_dir_kind (kind i) then
        if readable i then inr (children fs d) else inl PermissionError
      else inl NotADirectoryError
  end.

(** Entries may be added to or removed from [d] unless [d] is there and
    not writable. *)
Definition dir_writable (fs : FS) (d : Path) : bool :=
  match fs !! d with
  | Some i => writable i
  | None => true
  end.

Definition unlink (fs : FS) (p : Path) : exn + FS :=
  match resolve fs p with
  | None => inl FileNotFoundError
  | Some k =>
      match fs !! k with
      | None => inl FileNotFoundError
      | Some i =>
          if negb (dir_writable fs (parent k)) then inl PermissionError
          else if is_dir_kind (kind i) then inl IsADirectoryError
          else inr (delete k fs)
      end
  end.

Definition rekey (ks kd p : Path) : Path :=
  if decide (ks `prefix_of` p) then kd ++ drop (length ks) p else p.

(** Moves the inode [i] found at [ks] to [kd], replacing what is there;
    a directory takes what is below it along. *)
Definition move (fs : FS) (i : inode) (ks kd : Path) : FS :=
  if is_dir_kind (kind i) then
    list_to_map (prod_map (rekey ks kd) id <$> map_to_list (delete kd fs))
  else <[kd := i]> (delete ks fs).

Definition has_children (fs : FS) (d : Path) : bool :=
  bool_decide (children fs d ≠ []).

(** [rename(2)]: a destination that exists is replaced, except that a
    directory only replaces an empty directory and nothing else replaces
    a directory; the link itself is replaced when the destination is a
    symbolic link. *)
Definition rename (fs : FS) (src dst : Path) : exn + FS :=
  match resolve fs src, resolve fs dst with
  | Some ks, Some kd =>
      match fs !! ks with
      | None => inl FileNotFoundError
      | Some i =>
          match fs !! parent kd with
          | None => inl FileNotFoundError
          | Some pd =>
              if negb (is_dir_kind (kind pd)) then inl NotADirectoryError
              else if negb (dir_writable fs (parent ks) && dir_writable fs (parent kd))
              then inl PermissionError
              else if decide (ks = kd) then inr fs
              else if decide (ks `prefix_of` kd) then inl OSError
              else
                match fs !! kd with
                | None => inr (move fs i ks kd)
                | Some j =>
                    match is_dir_kind (kind i), is_dir_kind (kind j) with
                    | true, true =>
                        if has_children fs kd then inl OSError else inr (move fs i ks kd)
                    | true, false => inl NotADirectoryError
                    | false, true => inl IsADirectoryError
                    | false, false => inr (move fs i ks kd)
                    end
                end
          end
      end
  | _, _ => inl FileNotFoundError
  end.

End Posix.

(** [p.exists()], [p.is_dir()], [p.is_file()]: through [stat], false when
    it fails.  [p.is_symlink()]: through [lstat]. *)
Definition path_exists (fs : FS) (p : Path) : bool :=
  match Posix.stat fs p with inr _ => true | inl _ => false end.

Definition path_is_dir (fs : FS) (p : Path) : bool :=
  match Posix.stat fs p with inr i => is_dir_kind (kind i) | inl _ => false end.

Definition path_is_file (fs : FS) (p : Path) : bool :=
  match Posix.stat fs p with inr i => is_reg_kind (kind i) | inl _ => false end.

Definition path_is_symlink (fs : FS) (p : Path) : bool :=
  match Posix.lstat fs p with Some i => is_lnk_kind (kind i) | None => false end.

(** ** The terminal *)

(** The prompts of [input]. *)
Inductive prompt :=
  | PromptDirectory (n : nat)   (* Choose: [y]es to use current | [1-n] to enter | [..] go up | [q]uit:
                                   (without the [1-n] part when n = 0) *)
  | PromptFiles (n : nat)       (* Select files [1-n], [c]lear, [d]one, [q]uit: *)
  | PromptPressEnter            (* Press Enter to continue... *)
  | PromptNewName               (* New name (Enter to skip): *)
  | PromptDeleteAll (n : nat)   (* Delete ALL n files? [y/N]: *)
  | PromptOperation.            (* Choose operation [1-4]: *)

(** What the program writes, one constructor for each [print] of the
    source (the seven lines of the operations menu count as one). *)
Inductive Msg :=
  | MsgPrompt (p : prompt)
  | MsgErrorAccessing (path : Path) (e : exn)     (* Error accessing {path}: {e} *)
  | MsgBanner                                     (* blank line, rule of 60 *)
  | MsgRule                                       (* rule of 60 *)
  | MsgCurrentDirectory (path : Path)             (* Current Directory: {path} *)
  | MsgDirEntry (i : nat) (n : string)            (* {i:2d}. {name} *)
  | MsgNoSubdirs                                  (* No subdirectories found *)
  | MsgAlreadyAtRoot                              (* Already at root directory *)
  | MsgInvalidChoice (n : nat)                    (* Invalid choice. Please enter 1-{n} *)
  | MsgInvalidInput                               (* Invalid input. Please try again. *)
  | MsgFilesIn (path : Path)                      (* Files in: {directory} *)
  | MsgFileEntry (marked : bool) (i : nat) (n size : string)
                                                  (* {marker} {i:2d}. {name} ({size}) *)
  | MsgSelectedCount (n : nat)                    (* Selected: {n} files *)
  | MsgSelectionCleared                           (* Selection cleared *)
  | MsgRemoved (n : string)                       (* - Removed: {name} *)
  | MsgAdded (n : string)                         (* + Added: {name} *)
  | MsgNoFilesFound (path : Path)                 (* No files found in {directory} *)
  | MsgRenaming (n : nat)                         (* Renaming {n} files: *)
  | MsgCurrent (n : string)                       (* Current: {name} *)
  | MsgSkipped                                    (* Skipped *)
  | MsgInvalidFilename                            (* Invalid filename characters. Skipped. *)
  | MsgAlreadyExists (n : string)                 (* File '{new_name}' already exists. Skipped. *)
  | MsgRenamedTo (n : string)                     (* Renamed to: {new_name} *)
  | MsgErrorRenaming (n : string) (e : exn)       (* Error renaming {name}: {e} *)
  | MsgDeleting (n : nat)                         (* Deleting {n} files: *)
  | MsgDeleteEntry (n size : string)              (* - {name} ({size}) *)
  | MsgDeletionCancelled                          (* Deletion cancelled *)
  | MsgDeleted (n : string)                       (* Deleted: {name} *)
  | MsgErrorDeleting (n : string) (e : exn)       (* Error deleting {name}: {e} *)
  | MsgDeletedSummary (deleted total : nat)       (* Successfully deleted {deleted}/{total} files *)
  | MsgFileInformation                            (* File Information: *)
  | MsgFileInfo (n size : string)                 (* {name}: {size} *)
  | MsgTotalSize (size : string)                  (* Total size: {size} *)
  | MsgOperationsMenu                             (* rule of 40, the four operations, rule of 40 *)
  | MsgInvalidOperation.                          (* Invalid choice *)

(** A line typed at a prompt.  The program is idle while it waits for it,
    and other processes may change the file system in the meantime. *)
Record typed := Typed {
  meanwhile : FS → FS;
  text : string
}.

(** A line typed while nothing else touches the file system. *)
Definition quiet (s : string) : typed := Typed id s.

(** A request of the program to change the file system, and whether it
    succeeded. *)
Inductive syscall :=
  | SysUnlink (p : Path) (ok : bool)
  | SysRename (src dst : Path) (ok : bool).

(** ** The world of the program *)

Record World := mkWorld {
  fs : FS;
  selected_files : list Path;     (* the list object created by [choose_files] *)
  stdin : list typed;
  stdout : list Msg;
  syscalls : list syscall
}.

Definition M (A : Type) : Type := World → outcome A * World.

Definition ret {A} (a : A) : M A := λ w, (Ret a, w).

Definition raise {A} (e : exn) : M A := λ w, (Raise e, w).

Definition bind {A B} (m : M A) (k : A → M B) : M B :=
  λ w, match m w with
       | (Ret a, w') => k a w'
       | (Raise e, w') => (Raise e, w')
       | (OutOfFuel, w') => (OutOfFuel, w')
       end.

Declare Scope py_scope.
Delimit Scope py_scope with py.
Notation "x <- m ;; k" := (bind m (λ x, k))
  (at level 100, m at next level, right associativity) : py_scope.
Notation "m ;;; k" := (bind m (λ _, k))
  (at level 100, right associativity) : py_scope.
Open Scope py_scope.

(** [try: m except classes as e: h e] *)
Definition try_except {A} (m : M A) (classes : exn → bool) (h : exn → M A) : M A :=
  λ w, match m w with
       | (Raise e, w') => if classes e then h e w' else (Raise e, w')
       | r => r
       end.

Definition print (m : Msg) : M unit :=
  λ w, (Ret tt, mkWorld (fs w) (selected_files w) (stdin w) (stdout w ++ [m]) (syscalls w)).

(** [input(p)]: writes the prompt, waits, returns the line typed; end of
    input raises [EOFError]. *)
Definition input (p : prompt) : M string :=
  λ w, match stdin w with
       | [] => (Raise EOFError,
                mkWorld (fs w) (selected_files w) [] (stdout w ++ [MsgPrompt p]) (syscalls w))
       | t :: rest => (Ret (text t),
                mkWorld (meanwhile t (fs w)) (selected_files w) rest
                        (stdout w ++ [MsgPrompt p]) (syscalls w))
       end.

(** Reads the file system. *)
Definition ask {A} (f : FS → A) : M A := λ w, (Ret (f (fs w)), w).

(** A call that may fail with an exception and changes nothing. *)
Definition query {A} (f : FS → exn + A) : M A :=
  λ w, match f (fs w) with
       | inl e => (Raise e, w)
       | inr a => (Ret a, w)
       end.

(** The value of a pure computation that may raise. *)
Definition lift {A} (o : outcome A) : M A := λ w, (o, w).

(** The list object of the selection: its content, and its mutators. *)
Definition selected : M (list Path) := λ w, (Ret (selected_files w), w).

Definition set_selected (l : list Path) : M unit :=
  λ w, (Ret tt, mkWorld (fs w) l (stdin w) (stdout w) (syscalls w)).

(** [l.remove(x)]: drops the first occurrence ([x] is known to occur). *)
Fixpoint list_remove (x : Path) (l : list Path) : list Path :=
  match l with
  | [] => []
  | y :: l' => if decide (x = y) then l' else y :: list_remove x l'
  end.

(** [p.unlink()] and [p.rename(q)] *)
Definition path_unlink (p : Path) : M unit :=
  λ w, match Posix.unlink (fs w) p with
       | inl e => (Raise e, mkWorld (fs w) (selected_files w) (stdin w) (stdout w)
                                    (syscalls w ++ [SysUnlink p false]))
       | inr fs' => (Ret tt, mkWorld fs' (selected_files w) (stdin w) (stdout w)
                                     (syscalls w ++ [SysUnlink p true]))
       end.

Definition path_rename (p q : Path) : M unit :=
  λ w, match Posix.rename (fs w) p q with
       | inl e => (Raise e, mkWorld (fs w) (selected_files w) (stdin w) (stdout w)
                                    (syscalls w ++ [SysRename p q false]))
       | inr fs' => (Ret tt, mkWorld fs' (selected_files w) (stdin w) (stdout w)
                                     (syscalls w ++ [SysRename p q true]))
       end.

(** [for x in l: body x] over a list that is a local value. *)
Fixpoint for_each {X} (l : list X) (body : X → M unit) : M unit :=
  match l with
  | [] => ret tt
  | x :: l' => body x ;;; for_each l' body
  end.

(** [for file in files: ...] over the list object of the selection, with
    the local variables the body updates in [acc].  The iterator reads the
    list at its index at every round, as Python's list iterator does. *)
Fixpoint for_from {A} (fuel i : nat) (body : Path → A → M A) (acc : A) : M A :=
  λ w, match fuel with
       | O => (OutOfFuel, w)
       | S fuel' =>
           match selected_files w !! i with
           | None => (Ret acc, w)
           | Some file => (acc' <- body file acc ;; for_from fuel' (S i) body acc') w
           end
       end.

Definition for_selected {A} (body : Path → A → M A) (acc : A) : M A :=
  λ w, for_from (S (length (selected_files w))) 0 body acc w.

(** ** The methods of [FileManager] *)

(** [x in ("a", "b", ...)] *)
Definition one_of (x : string) (l : list string) : bool := bool_decide (x ∈ l).

(** The two exception classes the listings handle. *)
Definition missing_or_denied (e : exn) : bool :=
  match e with
  | FileNotFoundError | PermissionError => true
  | _ => false
  end.

Definition get_directories (path : Path) : M (list Path) :=
  try_except
    (entries <- query (λ fs, Posix.scandir fs path) ;;
     ask (λ fs, filter (λ d, path_is_dir fs d && negb (path_is_symlink fs d))
                       (merge_sort path_le entries)))
    missing_or_denied
    (λ e, print (MsgErrorAccessing path e) ;;; ret []).

(** [path.glob("*")]: the entries of the directory; pathlib's globbing
    yields nothing, and raises nothing, where the directory cannot be
    listed. *)
Definition glob_star (fs : FS) (path : Path) : list Path :=
  match Posix.scandir fs path with
  | inr l => l
  | inl _ => []
  end.

Definition get_files (path : Path) : M (list Path) :=
  try_except
    (ask (λ fs, filter (λ f, path_is_file fs f && negb (path_is_symlink fs f))
                       (merge_sort path_le (glob_star fs path))))
    missing_or_denied
    (λ e, print (MsgErrorAccessing path e) ;;; ret []).

(** [for i, x in enumerate(l, i): body i x] *)
Fixpoint for_enumerate {X} (i : nat) (l : list X) (body : nat → X → M unit) : M unit :=
  match l with
  | [] => ret tt
  | x :: l' => body i x ;;; for_enumerate (S i) l' body
  end.

Definition _display_directory_menu (current_path : Path) (directories : list Path) : M string :=
  print MsgBanner ;;;
  print (MsgCurrentDirectory current_path) ;;;
  (match directories with
   | [] => print MsgNoSubdirs
   | _ => for_enumerate 1 directories (λ i directory, print (MsgDirEntry i (name directory)))
   end) ;;;
  print MsgRule ;;;
  answer <- input (PromptDirectory (length directories)) ;;
  ret (Str.lower (Str.strip answer)).

Definition _handle_directory_choice (choice : string) (current_path : Path)
    (directories : list Path) : M (option Path) :=
  if one_of choice ["y"; "yes"; EmptyString]%string then ret (Some current_path)
  else if one_of choice ["q"; "quit"]%string then ret None
  else if decide (choice = ".."%string) then
    let parent := parent current_path in
    if decide (parent ≠ current_path) then ret (Some parent)
    else print MsgAlreadyAtRoot ;;; ret (Some current_path)
  else if Str.isdigit choice then
    let idx := Str.int choice - 1 in
    if (0 <=? idx) && (idx <? Z.of_nat (length directories)) then
      ret (directories !! Z.to_nat idx)
    else print (MsgInvalidChoice (length directories)) ;;; ret (Some current_path)
  else print MsgInvalidInput ;;; ret (Some current_path).

(** The [while True] of [choose_directory], at most [fuel] rounds. *)
Fixpoint choose_directory_loop (fuel : nat) (current_path : Path) : M (option Path) :=
  match fuel with
  | O => lift OutOfFuel
  | S fuel' =>
      directories <- get_directories current_path ;;
      choice <- _display_directory_menu current_path directories ;;
      result <- _handle_directory_choice choice current_path directories ;;
      match result with
      | None => ret None
      | Some result =>
          let current_path := if decide (result ≠ current_path) then result else current_path in
          if one_of choice ["y"; "yes"; EmptyString]%string then ret (Some current_path)
          else choose_directory_loop fuel' current_path
      end
  end.

(** Every round reads a line, so one round more than there are lines
    always suffices. *)
Definition choose_directory (start_path : Path) : M (option Path) :=
  λ w, choose_directory_loop (S (length (stdin w))) start_path w.

Definition path_stat (p : Path) : M inode := query (λ fs, Posix.stat fs p).

Definition _display_file_menu (directory : Path) (files : list Path) : M string :=
  print MsgBanner ;;;
  print (MsgFilesIn directory) ;;;
  for_enumerate 1 files (λ i file,
    selected_files <- selected ;;
    let marker := bool_decide (file ∈ selected_files) in
    st <- path_stat file ;;
    size <- lift (format_file_size (st_size st)) ;;
    print (MsgFileEntry marker i (name file) size)) ;;;
  selected_files <- selected ;;
  (match selected_files with
   | [] => ret tt
   | _ => print (MsgSelectedCount (length selected_files))
   end) ;;;
  print MsgRule ;;;
  answer <- input (PromptFiles (length files)) ;;
  ret (Str.lower (Str.strip answer)).

Definition _handle_file_choice (choice : string) (files : list Path) : M bool :=
  if one_of choice ["d"; "done"; EmptyString]%string then ret false
  else if one_of choice ["q"; "quit"]%string then set_selected [] ;;; ret false
  else if one_of choice ["c"; "clear"]%string then
    set_selected [] ;;; print MsgSelectionCleared ;;; ret true
  else if Str.isdigit choice then
    let idx := Str.int choice - 1 in
    (if (0 <=? idx) && (idx <? Z.of_nat (length files)) then
       match files !! Z.to_nat idx with
       | Some file =>
           selected_files <- selected ;;
           if bool_decide (file ∈ selected_files) then
             set_selected (list_remove file selected_files) ;;;
             print (MsgRemoved (name file))
           else
             set_selected (selected_files ++ [file]) ;;;
             print (MsgAdded (name file))
       | None => ret tt
       end
     else print (MsgInvalidChoice (length files))) ;;;
    ret true
  else print MsgInvalidInput ;;; ret true.

Fixpoint choose_files_loop (fuel : nat) (directory : Path) (files : list Path) : M unit :=
  match fuel with
  | O => lift OutOfFuel
  | S fuel' =>
      choice <- _display_file_menu directory files ;;
      should_continue <- _handle_file_choice choice files ;;
      if should_continue then choose_files_loop fuel' directory files else ret tt
  end.

Definition choose_files (directory : Path) : M (list Path) :=
  files <- get_files directory ;;
  match files with
  | [] =>
      print (MsgNoFilesFound directory) ;;;
      input PromptPressEnter ;;;
      ret []
  | _ =>
      set_selected [] ;;;
      (λ w, choose_files_loop (S (length (stdin w))) directory files w) ;;;
      selected
  end.

Definition _validate_filename (filename : string) : bool :=
  negb (Str.any_in INVALID_FILENAME_CHARS filename).

(** The body of the loop of [rename_files]. *)
Definition rename_one (file : Path) : M unit :=
  print (MsgCurrent (name file)) ;;;
  answer <- input PromptNewName ;;
  let new_name := Str.strip answer in
  if decide (new_name = EmptyString) then print MsgSkipped
  else if negb (_validate_filename new_name) then print MsgInvalidFilename
  else
    let new_path := joinpath (parent file) new_name in
    there <- ask (λ fs, path_exists fs new_path) ;;
    if there then print (MsgAlreadyExists new_name)
    else
      try_except
        (path_rename file new_path ;;; print (MsgRenamedTo new_name))
        is_OSError
        (λ e, print (MsgErrorRenaming (name file) e)).

Definition rename_files : M unit :=
  files <- selected ;;
  match files with
  | [] => ret tt
  | _ =>
      print (MsgRenaming (length files)) ;;;
      for_selected (λ file _, rename_one file) tt
  end.

(** The [try] statement of [delete_files]: the loop over the selection
    with its handler, which ends the loop at the first [OSError] and
    reports the file it was raised for.  Returns [deleted_count]. *)
Fixpoint delete_loop (fuel i : nat) (deleted_count : nat) : M nat :=
  λ w, match fuel with
       | O => (OutOfFuel, w)
       | S fuel' =>
           match selected_files w !! i with
           | None => (Ret deleted_count, w)
           | Some file =>
               (r <- try_except
                       (path_unlink file ;;;
                        print (MsgDeleted (name file)) ;;;
                        ret (Some (S deleted_count)))
                       is_OSError
                       (λ e, print (MsgErrorDeleting (name file) e) ;;; ret None) ;;
                match r with
                | Some n => delete_loop fuel' (S i) n
                | None => ret deleted_count
                end) w
           end
       end.

(** The body of the loop of [delete_files] that shows what is to go. *)
Definition delete_entry (file : Path) : M unit :=
  st <- path_stat file ;;
  size <- lift (format_file_size (st_size st)) ;;
  print (MsgDeleteEntry (name file) size).

Definition delete_files : M unit :=
  files <- selected ;;
  match files with
  | [] => ret tt
  | _ =>
      print (MsgDeleting (length files)) ;;;
      for_selected (λ file _, delete_entry file) tt ;;;
      files <- selected ;;
      answer <- input (PromptDeleteAll (length files)) ;;
      let confirm := Str.lower (Str.strip answer) in
      if negb (one_of confirm ["y"; "yes"]%string) then print MsgDeletionCancelled
      else
        deleted_count <- (λ w, delete_loop (S (length (selected_files w))) 0 0 w) ;;
        files <- selected ;;
        print (MsgDeletedSummary deleted_count (length files))
  end.

Definition _show_file_info : M unit :=
  print MsgFileInformation ;;;
  total_size <- for_selected (λ file total_size,
    st <- path_stat file ;;
    let size := st_size st in
    shown <- lift (format_file_size size) ;;
    print (MsgFileInfo (name file) shown) ;;;
    ret (total_size + size)) 0 ;;
  shown <- lift (format_file_size total_size) ;;
  print (MsgTotalSize shown).

(** The [while True] of [_run_operations_menu], at most [fuel] rounds. *)
Fixpoint operations_loop (fuel : nat) : M unit :=
  match fuel with
  | O => lift OutOfFuel
  | S fuel' =>
      print MsgOperationsMenu ;;;
      answer <- input PromptOperation ;;
      let choice := Str.strip answer in
      if decide (choice = "1"%string) then rename_files ;;; operations_loop fuel'
      else if decide (choice = "2"%string) then delete_files
      else if decide (choice = "3"%string) then _show_file_info ;;; operations_loop fuel'
      else if one_of choice ["4"; "q"; "quit"; EmptyString]%string then ret tt
      else print MsgInvalidOperation ;;; operations_loop fuel'
  end.

Definition _run_operations_menu : M unit :=
  λ w, operations_loop (S (length (stdin w))) w.

(** ** Reference definitions used in the statements *)

(** The size formatter as the specification words it, on exact quotients
    [num / den]: divide by 1024 while advancing through the units, stop at
    the first unit where the value is below 1024, or at the last unit. *)
Fixpoint spec_scale (later : list string) (unit : string) (num den : Z) : Z * Z * string :=
  match later with
  | [] => (num, den, unit)
  | next :: later' =>
      if num <? 1024 * den then (num, den, unit)
      else spec_scale later' next num (den * 1024)
  end.

(** The value rounded to one decimal place, a space, the unit symbol. *)
Definition spec_format_file_size (n : Z) : string :=
  let '(num, den, unit) := spec_scale ["KB"; "MB"; "GB"; "TB"]%string "B"%string n 1 in
  (Num.render_tenths false (Num.round_half_even (10 * num) den) +:+ " " +:+ unit)%string.

(** The size shown next to a file: [format_file_size(file.stat().st_size)]. *)
Definition shown_size (fs : FS) (p : Path) : outcome string :=
  match Posix.stat fs p with
  | inl e => Raise e
  | inr st => format_file_size (st_size st)
  end.

Definition displayable (fs : FS) (p : Path) : Prop := ∃ s, shown_size fs p = Ret s.

(** The lines [delete_files] lists before it asks. *)
Definition delete_listing (fs : FS) (l : list Path) : list Msg :=
  l ≫= λ p, match shown_size fs p with
            | Ret s => [MsgDeleteEntry (name p) s]
            | _ => []
            end.

(** Deleting one file after the other and stopping at the first failure:
    the files deleted, the file system left, and the failure if any. *)
Fixpoint unlink_all (fs : FS) (l : list Path) : list Path * FS * option (Path * exn) :=
  match l with
  | [] => ([], fs, None)
  | p :: l' =>
      match Posix.unlink fs p with
      | inl e => ([], fs, Some (p, e))
      | inr fs' => let '(done, fs'', failure) := unlink_all fs' l' in (p :: done, fs'', failure)
      end
  end.

(** What the deleting loop prints, and what it asks of the system, when
    it deletes [done] and then fails, or not, as [failure] says. *)
Definition delete_report (done : list Path) (failure : option (Path * exn)) : list Msg :=
  ((λ p, MsgDeleted (name p)) <$> done) ++
  match failure with
  | Some (p, e) => [MsgErrorDeleting (name p) e]
  | None => []
  end.

Definition delete_calls (done : list Path) (failure : option (Path * exn)) : list syscall :=
  ((λ p, SysUnlink p true) <$> done) ++
  match failure with
  | Some (p, e) => [SysUnlink p false]
  | None => []
  end.

(** A run of choices given to the file selector, one after the other. *)
Fixpoint handle_choices (choices : list string) (files : list Path) : M unit :=
  match choices with
  | [] => ret tt
  | choice :: choices' => _handle_file_choice choice files ;;; handle_choices choices' files
  end.

(** No entry of a file system is named by a double dot. *)
Definition canonical_keys (fs : FS) : Prop :=
  ∀ p i, fs !! p = Some i → ".."%string ∉ p.

(** Ascending order of the names. *)
Definition name_lt (p q : Path) : Prop := String.compare (name p) (name q) = Lt.

(** A computation whose final world is always related to its initial one. *)
Definition within {A} (R : relation World) (m : M A) : Prop :=
  ∀ w, R w (m w).2.

(** A computation that leaves one component of the world as it was: the
    list object of the selection, the file system, the lines to read. *)
Definition keeps {A X} (field : World → X) (m : M A) : Prop :=
  within (λ w w', field w' = field w) m.

(** A computation that puts no line back on the terminal. *)
Definition no_more_lines {A} (m : M A) : Prop :=
  within (λ w w', (length (stdin w') ≤ length (stdin w))%nat) m.

(** A computation that never reaches the bound of an unrolled loop. *)
Definition total {A} (m : M A) : Prop := ∀ w, (m w).1 ≠ OutOfFuel.

(** A computation that, when it returns, has taken a line from the
    terminal, puts none back when it raises, and is total. *)
Definition reads_line {A} (m : M A) : Prop :=
  ∀ w, match m w with
       | (Ret _, w') => (length (stdin w') < length (stdin w))%nat
       | (Raise _, w') => (length (stdin w') ≤ length (stdin w))%nat
       | (OutOfFuel, _) => False
       end.

(** What the file selector maintains of its selection over the listed
    files: no path twice, only listed paths. *)
Definition selection_ok (files sel : list Path) : Prop := NoDup sel ∧ sel ⊆ files.

(** What choosing a listed file does to the selection. *)
Definition toggled (f : Path) (sel : list Path) : list Path :=
  if bool_decide (f ∈ sel) then list_remove f sel else sel ++ [f].

(** The two listings of a directory that can be read. *)
Definition listed_directories (fs : FS) (d : Path) : list Path :=
  filter (λ p, path_is_dir fs p && negb (path_is_symlink fs p))
         (merge_sort path_le (Posix.children fs d)).

Definition listed_files (fs : FS) (d : Path) : list Path :=
  filter (λ p, path_is_file fs p && negb (path_is_symlink fs p))
         (merge_sort path_le (Posix.children fs d)).

(** ** Sample worlds *)

Definition demo_listing : list Path := [["d"; "a"]; ["d"; "b"]; ["d"; "c"]]%string.

Definition demo_idle : World := mkWorld ∅ [] [] [] [].

Definition folder : inode := Inode S_IFDIR 4096 true true.

Definition regular (size : Z) : inode := Inode S_IFREG size true true.

Definition link_to (target : Path) : inode := Inode (S_IFLNK target) 0 true true.

(** A directory with one regular file and one symbolic link to it. *)
Definition demo_links : FS :=
  list_to_map [([], folder); (["d"], folder);
               (["d"; "real"], regular 10);
               (["d"; "alias"], link_to ["d"; "real"])]%string.

Definition demo_a : Path := ["d"; "a"]%string.
Definition demo_b : Path := ["d"; "b"]%string.
Definition demo_c : Path := ["d"; "c"]%string.

(** A directory with three regular files. *)
Definition demo_tree : FS :=
  list_to_map [([], Inode S_IFDIR 4096 true true);
               (["d"%string], Inode S_IFDIR 4096 true true);
               (demo_a, Inode S_IFREG 10 true true);
               (demo_b, Inode S_IFREG 2000 true true);
               (demo_c, Inode S_IFREG 5 true true)].

(** Three files selected; the second is removed by another process while
    the question is open, and the answer is yes. *)
Definition demo_race : World :=
  mkWorld demo_tree [demo_a; demo_b; demo_c] [Typed (delete demo_b) "y"] [] [].

Definition demo_report : Path := ["d"; "report"]%string.
Definition demo_latest : Path := ["d"; "latest"]%string.

(** A directory with a regular file and a symbolic link whose target is
    missing. *)
Definition demo_dangling : FS :=
  list_to_map [([], folder); (["d"%string], folder);
               (demo_report, regular 10);
               (demo_latest, link_to ["d"; "gone"]%string)].

(** ** Definitions for the second part *)

(** An answer as the directory menu, the file menu and the question of
    [delete_files] take it: stripped, then in lower case. *)
Definition normalized (t : typed) : string := Str.lower (Str.strip (text t)).

(** The lines of the directory menu between its header and its rule. *)
Definition directory_lines (first : nat) (directories : list Path) : list Msg :=
  imap (λ j directory, MsgDirEntry (first + j) (name directory)) directories.

Definition directory_menu (current_path : Path) (directories : list Path) : list Msg :=
  [MsgBanner; MsgCurrentDirectory current_path] ++
  (match directories with
   | [] => [MsgNoSubdirs]
   | _ => directory_lines 1 directories
   end) ++
  [MsgRule; MsgPrompt (PromptDirectory (length directories))].

(** The rows of the file menu: number, name, size and the mark of the
    files that are in the selection. *)
Fixpoint file_lines (tree : FS) (sel : list Path) (i : nat) (files : list Path) : list Msg :=
  match files with
  | [] => []
  | file :: files' =>
      match shown_size tree file with
      | Ret size => [MsgFileEntry (bool_decide (file ∈ sel)) i (name file) size]
      | _ => []
      end ++ file_lines tree sel (S i) files'
  end.

Definition file_menu (tree : FS) (sel : list Path) (directory : Path) (files : list Path)
    : list Msg :=
  [MsgBanner; MsgFilesIn directory] ++ file_lines tree sel 1 files ++
  (match sel with
   | [] => []
   | _ => [MsgSelectedCount (length sel)]
   end) ++
  [MsgRule; MsgPrompt (PromptFiles (length files))].

(** The body of the loop of [_display_file_menu]. *)
Definition file_row (i : nat) (file : Path) : M unit :=
  selected_files <- selected ;;
  let marker := bool_decide (file ∈ selected_files) in
  st <- path_stat file ;;
  size <- lift (format_file_size (st_size st)) ;;
  print (MsgFileEntry marker i (name file) size).


(** A session of the file selector over the sample directory. *)
Definition demo_selecting : World :=
  mkWorld demo_tree [] [quiet "1"; quiet "3"; quiet "1"; quiet "D"; quiet "x"] [] [].

(** The requests made between two worlds all satisfy [P]. *)
Definition calls_since (P : syscall → Prop) : relation World :=
  λ w w', ∃ calls, syscalls w' = syscalls w ++ calls ∧ Forall P calls.

(** The request [rename_files] makes for [file] once [new_name] is
    accepted, with its result. *)
Definition rename_call (r : Path * string * bool) : syscall :=
  let '(file, new_name, ok) := r in
  SysRename file (joinpath (parent file) new_name) ok.

Definition is_rename (c : syscall) : Prop :=
  match c with SysRename _ _ _ => True | SysUnlink _ _ => False end.

(** The paths [delete_files] asks to unlink, in order. *)
Definition unlink_requests (done : list Path) (failure : option (Path * exn)) : list Path :=
  done ++ match failure with Some (p, _) => [p] | None => [] end.

(** No line is put back on the terminal. *)
Definition lines_left : relation World := λ w w', stdin w' `suffix_of` stdin w.

(** The lines of the size report, and the sum it shows. *)
Definition info_lines (tree : FS) (l : list Path) : list Msg :=
  l ≫= λ p, match shown_size tree p with
            | Ret s => [MsgFileInfo (name p) s]
            | _ => []
            end.

Definition size_of (tree : FS) (p : Path) : Z :=
  match Posix.stat tree p with inr st => st_size st | inl _ => 0 end.

Definition sum_sizes (tree : FS) (l : list Path) : Z :=
  foldr (λ p acc, size_of tree p + acc) 0 l.

(** The body of the loop of [_show_file_info]. *)
Definition info_row (file : Path) (total_size : Z) : M Z :=
  st <- path_stat file ;;
  let size := st_size st in
  shown <- lift (format_file_size size) ;;
  print (MsgFileInfo (name file) shown) ;;;
  ret (total_size + size).

(** ** What the building blocks leave alone *)

Section Frame.

Context (R : relation World).
Hypothesis R_refl : ∀ w, R w w.
Hypothesis R_trans : ∀ w1 w2 w3, R w1 w2 → R w2 w3 → R w1 w3.

Lemma within_bind {A B} (m : M A) (k : A → M B) :
  within R m → (∀ a, within R (k a)) → within R (bind m k).
Proof using R_trans.
  intros Hm Hk w. unfold bind. specialize (Hm w).
  destruct (m w) as [[a | e |] w1]; cbn in *; [| done | done].
  eapply R_trans; [exact Hm | apply Hk].
Qed.

Lemma within_try_except {A} (m : M A) classes h :
  within R m → (∀ e, within R (h e)) → within R (try_except m classes h).
Proof using R_trans.
  intros Hm Hh w. unfold try_except. specialize (Hm w).
  destruct (m w) as [[a | e |] w1]; cbn in *; [done | | done].
  destruct (classes e); [| done]. eapply R_trans; [exact Hm | apply Hh].
Qed.

Lemma within_for_each {A} (l : list A) (body : A → M unit) :
  (∀ x, within R (body x)) → within R (for_each l body).
Proof using R_refl R_trans.
  intros Hb. induction l as [| x l IH]; cbn [for_each];
    [intros w; apply R_refl | apply within_bind; auto].
Qed.

Lemma within_for_enumerate {A} (l : list A) (body : nat → A → M unit) i :
  (∀ i x, within R (body i x)) → within R (for_enumerate i l body).
Proof using R_refl R_trans.
  intros Hb. revert i. induction l as [| x l IH]; intros i; cbn [for_enumerate];
    [intros w; apply R_refl | apply within_bind; auto].
Qed.

Lemma within_for_from {A} (body : Path → A → M A) fuel i acc :
  (∀ file a, within R (body file a)) → within R (for_from fuel i body acc).
Proof using R_refl R_trans.
  intros Hb. revert i acc. induction fuel as [| fuel IH]; intros i acc w;
    [apply R_refl |].
  cbn [for_from]. destruct (selected_files w !! i) as [file |]; [| apply R_refl].
  apply within_bind; auto.
Qed.

Lemma within_for_selected {A} (body : Path → A → M A) acc :
  (∀ file a, within R (body file a)) → within R (for_selected body acc).
Proof using R_refl R_trans.
  intros Hb w. unfold for_selected. by apply within_for_from.
Qed.

End Frame.

(** The two relations in use are reflexive and transitive. *)
Ltac frame_order :=
  solve [intros; cbn beta in *; first [reflexivity | congruence | lia]].

(** A primitive is within a relation when its definition says so. *)
Ltac frame_primitive :=
  let w := fresh "w" in
  intros w;
  unfold path_stat, path_unlink, path_rename;
  unfold ret, raise, lift, ask, query, print, input, selected, set_selected;
  repeat case_match; cbn; first [reflexivity | lia].

(** Goes through a method along its binds, branches and loops. *)
Ltac frame :=
  unfold keeps, no_more_lines in *;
  repeat first
    [ match goal with |- ∀ _, _ => intro end
    | progress cbv zeta
    | solve [auto with nocore]
    | apply within_bind; [frame_order | |]
    | apply within_try_except; [frame_order | |]
    | apply within_for_each; [frame_order | frame_order |]
    | apply within_for_enumerate; [frame_order | frame_order |]
    | apply within_for_selected; [frame_order | frame_order |]
    | apply within_for_from; [frame_order | frame_order |]
    | match goal with |- within _ (match ?x with _ => _ end) => destruct x end
    | match goal with |- within _ (if ?x then _ else _) => destruct x end
    | solve [frame_primitive] ].

Lemma keeps_for_from {A X} (field : World → X) (body : Path → A → M A) fuel i acc :
  (∀ file a, keeps field (body file a)) → keeps field (for_from fuel i body acc).
Proof. intros Hb. frame. Qed.

Lemma keeps_display_file_menu directory files :
  keeps selected_files (_display_file_menu directory files).
Proof. unfold _display_file_menu. frame. Qed.

Lemma keeps_rename_one file : keeps selected_files (rename_one file).
Proof. unfold rename_one. frame. Qed.

Lemma keeps_rename_files : keeps selected_files rename_files.
Proof. unfold rename_files. frame. Qed.

(** ** Termination

    The loops of the program are unrolled a bounded number of times; this
    part shows that the bounds given are never reached. *)

Section Totality.

Lemma total_bind {A B} (m : M A) (k : A → M B) :
  total m → (∀ a, total (k a)) → total (bind m k).
Proof.
  intros Hm Hk w. unfold bind. specialize (Hm w).
  destruct (m w) as [[a | e |] w1]; cbn in *; [apply Hk | done | done].
Qed.

Lemma total_try_except {A} (m : M A) classes h :
  total m → (∀ e, total (h e)) → total (try_except m classes h).
Proof.
  intros Hm Hh w. unfold try_except. specialize (Hm w).
  destruct (m w) as [[a | e |] w1]; cbn in *; [done | | done].
  destruct (classes e); [apply Hh | done].
Qed.

(** A loop over the selection whose body leaves the list alone ends
    within one round more than the list is long. *)
Lemma total_for_from {A} (body : Path → A → M A) fuel i (acc : A) w :
  (∀ file a, keeps selected_files (body file a)) →
  (∀ file a, total (body file a)) →
  (length (selected_files w) - i < fuel)%nat →
  (for_from fuel i body acc w).1 ≠ OutOfFuel.
Proof.
  intros Hk Ht. revert i acc w.
  induction fuel as [| fuel IH]; intros i acc w Hfuel; [lia |].
  cbn [for_from]. destruct (selected_files w !! i) as [file |] eqn:Hi; [| done].
  apply lookup_lt_Some in Hi. unfold bind.
  pose proof (Hk file acc w) as Hsel. pose proof (Ht file acc w) as Hbody.
  destruct (body file acc w) as [[a | e |] w1]; cbn in *; [| done | done].
  apply IH. rewrite Hsel. lia.
Qed.

Lemma total_for_selected {A} (body : Path → A → M A) (acc : A) :
  (∀ file a, keeps selected_files (body file a)) →
  (∀ file a, total (body file a)) →
  total (for_selected body acc).
Proof. intros Hk Ht w. unfold for_selected. apply total_for_from; [done | done | lia]. Qed.

Lemma total_for_enumerate {A} (l : list A) (body : nat → A → M unit) i :
  (∀ i x, total (body i x)) → total (for_enumerate i l body).
Proof.
  intros Hb. revert i. induction l as [| x l IH]; intros i; cbn [for_enumerate];
    [done | apply total_bind; auto].
Qed.

Lemma format_file_size_total n : format_file_size n ≠ OutOfFuel.
Proof.
  unfold format_file_size. cbn [format_loop].
  unfold format_with_unit, Num.truediv_kb, Num.format_1f.
  repeat (case_match; try congruence).
Qed.

Lemma total_lift_size n : total (lift (format_file_size n)).
Proof. intros w. apply format_file_size_total. Qed.

End Totality.

Ltac total_primitive :=
  let w := fresh "w" in
  intros w;
  unfold path_stat, path_unlink, path_rename;
  unfold ret, raise, ask, query, print, input, selected, set_selected;
  repeat case_match; cbn; congruence.

Ltac total :=
  repeat first
    [ match goal with |- ∀ _, _ => intro end
    | progress cbv zeta
    | solve [auto with nocore]
    | apply total_bind
    | apply total_try_except
    | apply total_for_enumerate
    | apply total_lift_size
    | apply total_for_selected; [solve [intros; frame] |]
    | match goal with |- total (match ?x with _ => _ end) => destruct x end
    | solve [total_primitive] ].

Lemma total_rename_one file : total (rename_one file).
Proof. unfold rename_one. total. Qed.

Lemma total_rename_files : total rename_files.
Proof.
  unfold rename_files. total.
Qed.

Lemma lookup_drop_cons (l : list Path) i (x : Path) :
  l !! i = Some x → drop i l = x :: drop (S i) l.
Proof.
  revert i. induction l as [| y l IH]; intros [| i] H; cbn in *; try done.
  - by injection H as ->.
  - by apply IH.
Qed.

Lemma total_delete_entry file : total (delete_entry file).
Proof. unfold delete_entry. total. Qed.

Lemma no_more_lines_delete_loop fuel i n : no_more_lines (delete_loop fuel i n).
Proof.
  revert i n. induction fuel as [| fuel IH]; intros i n w; [done |].
  cbn [delete_loop]. destruct (selected_files w !! i) as [file |]; [| done].
  revert w. change (no_more_lines
    (r <- try_except
            (path_unlink file ;;; print (MsgDeleted (name file)) ;;; ret (Some (S n)))
            is_OSError
            (λ e, print (MsgErrorDeleting (name file) e) ;;; ret None) ;;
     match r with
     | Some n => delete_loop fuel (S i) n
     | None => ret n
     end)).
  frame.
Qed.

Lemma keeps_selection_delete_loop fuel i n : keeps selected_files (delete_loop fuel i n).
Proof.
  revert i n. induction fuel as [| fuel IH]; intros i n w; [done |].
  cbn [delete_loop]. destruct (selected_files w !! i) as [file |]; [| done].
  revert w. change (keeps selected_files
    (r <- try_except
            (path_unlink file ;;; print (MsgDeleted (name file)) ;;; ret (Some (S n)))
            is_OSError
            (λ e, print (MsgErrorDeleting (name file) e) ;;; ret None) ;;
     match r with
     | Some n => delete_loop fuel (S i) n
     | None => ret n
     end)).
  frame.
Qed.

Lemma total_delete_loop fuel i n w :
  (length (selected_files w) - i < fuel)%nat → (delete_loop fuel i n w).1 ≠ OutOfFuel.
Proof.
  revert i n w. induction fuel as [| fuel IH]; intros i n w Hfuel; [lia |].
  cbn [delete_loop]. destruct (selected_files w !! i) as [file |] eqn:Hi; [| done].
  apply lookup_lt_Some in Hi.
  unfold bind, try_except, path_unlink, print, ret.
  destruct (Posix.unlink (fs w) file) as [e | fs1]; cbn.
  - destruct (is_OSError e); done.
  - apply IH. cbn. lia.
Qed.

Lemma total_delete_files : total delete_files.
Proof.
  unfold delete_files. total.
  intros w. apply total_delete_loop. lia.
Qed.

Lemma no_more_lines_delete_files : no_more_lines delete_files.
Proof.
  unfold delete_files. frame.
  intros w. apply no_more_lines_delete_loop.
Qed.

Lemma total_show_file_info : total _show_file_info.
Proof. unfold _show_file_info. total. Qed.

Lemma no_more_lines_show_file_info : no_more_lines _show_file_info.
Proof. unfold _show_file_info. frame. Qed.

Lemma no_more_lines_rename_files : no_more_lines rename_files.
Proof. unfold rename_files. frame. Qed.

Lemma total_get_directories path : total (get_directories path).
Proof. unfold get_directories. total. Qed.

Lemma no_more_lines_get_directories path : no_more_lines (get_directories path).
Proof. unfold get_directories. frame. Qed.

Lemma total_handle_directory_choice choice current directories :
  total (_handle_directory_choice choice current directories).
Proof. unfold _handle_directory_choice. total. Qed.

Lemma no_more_lines_handle_directory_choice choice current directories :
  no_more_lines (_handle_directory_choice choice current directories).
Proof. unfold _handle_directory_choice. frame. Qed.

Lemma total_handle_file_choice choice files : total (_handle_file_choice choice files).
Proof. unfold _handle_file_choice. total. Qed.

Lemma no_more_lines_handle_file_choice choice files :
  no_more_lines (_handle_file_choice choice files).
Proof. unfold _handle_file_choice. frame. Qed.

(** A computation that takes a line from the terminal when it returns. *)
Section ReadsLine.

Lemma reads_input p : reads_line (input p).
Proof. intros w. unfold input. destruct (stdin w); cbn; lia. Qed.

Lemma reads_bind_l {A B} (m : M A) (k : A → M B) :
  reads_line m → (∀ a, no_more_lines (k a)) → (∀ a, total (k a)) → reads_line (bind m k).
Proof.
  intros Hm Hk Ht w. unfold bind. specialize (Hm w).
  destruct (m w) as [[a | e |] w1]; [| done | done].
  specialize (Hk a w1). specialize (Ht a w1). cbn beta in Hk.
  destruct (k a w1) as [[b | e |] w2]; cbn in *; [lia | lia | done].
Qed.

Lemma reads_bind_r {A B} (m : M A) (k : A → M B) :
  no_more_lines m → total m → (∀ a, reads_line (k a)) → reads_line (bind m k).
Proof.
  intros Hm Ht Hk w. unfold bind. specialize (Hm w). specialize (Ht w). cbn beta in Hm.
  destruct (m w) as [[a | e |] w1]; cbn in *; [| done | done].
  specialize (Hk a w1).
  destruct (k a w1) as [[b | e |] w2]; cbn in *; [lia | lia | done].
Qed.

End ReadsLine.

Ltac reads :=
  repeat first
    [ match goal with |- ∀ _, _ => intro end
    | apply reads_input
    | apply reads_bind_l; [apply reads_input | solve [intros; frame] | solve [intros; total] ]
    | apply reads_bind_r; [solve [frame] | solve [total] | ] ].

Lemma reads_display_directory_menu current directories :
  reads_line (_display_directory_menu current directories).
Proof. unfold _display_directory_menu. reads. Qed.

Lemma reads_display_file_menu directory files :
  reads_line (_display_file_menu directory files).
Proof. unfold _display_file_menu. reads. Qed.

(** The navigator: one round more than there are lines to read is enough. *)
Lemma choose_directory_loop_total fuel current w :
  (length (stdin w) < fuel)%nat → (choose_directory_loop fuel current w).1 ≠ OutOfFuel.
Proof.
  revert current w. induction fuel as [| fuel IH]; intros current w Hfuel; [lia |].
  cbn [choose_directory_loop]. unfold bind at 1.
  pose proof (total_get_directories current w) as Ht1.
  pose proof (no_more_lines_get_directories current w) as Hn1. cbn beta in Hn1.
  destruct (get_directories current w) as [[directories | e |] w1]; cbn in *; [| done | done].
  unfold bind at 1.
  pose proof (reads_display_directory_menu current directories w1) as Hr.
  destruct (_display_directory_menu current directories w1) as [[choice | e |] w2];
    [| done | done].
  unfold bind at 1.
  pose proof (total_handle_directory_choice choice current directories w2) as Ht3.
  pose proof (no_more_lines_handle_directory_choice choice current directories w2) as Hn3.
  cbn beta in Hn3.
  destruct (_handle_directory_choice choice current directories w2) as [[result | e |] w3];
    cbn in *; [| done | done].
  destruct result as [result |]; [| done].
  destruct (one_of choice _); [done |]. apply IH. lia.
Qed.

Lemma total_choose_directory start_path : total (choose_directory start_path).
Proof. intros w. unfold choose_directory. apply choose_directory_loop_total. lia. Qed.

(** The file selector. *)
Lemma choose_files_loop_total fuel directory files w :
  (length (stdin w) < fuel)%nat → (choose_files_loop fuel directory files w).1 ≠ OutOfFuel.
Proof.
  revert w. induction fuel as [| fuel IH]; intros w Hfuel; [lia |].
  cbn [choose_files_loop]. unfold bind at 1.
  pose proof (reads_display_file_menu directory files w) as Hr.
  destruct (_display_file_menu directory files w) as [[choice | e |] w1]; [| done | done].
  unfold bind.
  pose proof (total_handle_file_choice choice files w1) as Ht.
  pose proof (no_more_lines_handle_file_choice choice files w1) as Hn. cbn beta in Hn.
  destruct (_handle_file_choice choice files w1) as [[[] | e |] w2]; cbn in *;
    [| done | done | done].
  apply IH. lia.
Qed.

Lemma total_choose_files directory : total (choose_files directory).
Proof.
  unfold choose_files. total.
  intros w. apply choose_files_loop_total. lia.
Qed.

(** The operations menu. *)
Lemma operations_loop_total fuel w :
  (length (stdin w) < fuel)%nat → (operations_loop fuel w).1 ≠ OutOfFuel.
Proof.
  revert w. induction fuel as [| fuel IH]; intros w Hfuel; [lia |].
  cbn [operations_loop]. unfold bind at 1, print at 1. unfold bind at 1, input at 1.
  cbn [fs selected_files stdin stdout syscalls].
  destruct (stdin w) as [| t rest] eqn:Hin; [done |]. cbn [length] in Hfuel.
  set (w1 := mkWorld _ _ rest _ _).
  assert (Hw1 : (length (stdin w1) < fuel)%nat) by (cbn; lia).
  clearbody w1.
  destruct (decide (Str.strip (text t) = "1"%string)).
  { unfold bind. pose proof (total_rename_files w1) as Ht.
    pose proof (no_more_lines_rename_files w1) as Hn. cbn beta in Hn.
    destruct (rename_files w1) as [[[] | err |] w2]; cbn in *; [| done | done].
    apply IH. lia. }
  destruct (decide (Str.strip (text t) = "2"%string)); [apply total_delete_files |].
  destruct (decide (Str.strip (text t) = "3"%string)).
  { unfold bind. pose proof (total_show_file_info w1) as Ht.
    pose proof (no_more_lines_show_file_info w1) as Hn. cbn beta in Hn.
    destruct (_show_file_info w1) as [[[] | err |] w2]; cbn in *; [| done | done].
    apply IH. lia. }
  destruct (one_of (Str.strip (text t)) _); [done |].
  unfold bind, print. cbn. apply IH. cbn. lia.
Qed.

Lemma total_run_operations_menu : total _run_operations_menu.
Proof. intros w. unfold _run_operations_menu. apply operations_loop_total. lia. Qed.

(** ** The size formatter *)

Section SizeFormatter.

Lemma round_half_even_unit a : Num.round_half_even a 1 = a.
Proof.
  unfold Num.round_half_even. rewrite Z.mod_1_r, Z.div_1_r. reflexivity.
Qed.

Lemma fl53_small n : Z.abs n < 2 ^ 53 → Num.fl53 n = n.
Proof.
  intros H. unfold Num.fl53.
  destruct (Z.ltb_spec (Z.abs n) (2 ^ 53)); [reflexivity | lia].
Qed.

Lemma round_half_even_ge a b : 0 < b → a / b ≤ Num.round_half_even a b.
Proof.
  intros Hb. unfold Num.round_half_even.
  repeat case_match; lia.
Qed.

Lemma round_half_even_le a b : 0 < b → Num.round_half_even a b ≤ a / b + 1.
Proof.
  intros Hb. unfold Num.round_half_even.
  repeat case_match; lia.
Qed.

(** Rounding to 53 bits does not go below [2^53]. *)
Lemma fl53_large n : 2 ^ 53 ≤ n → 2 ^ 53 ≤ Num.fl53 n.
Proof.
  intros H. unfold Num.fl53.
  assert (Hn : 0 < n) by lia.
  rewrite Z.abs_eq by lia.
  destruct (Z.ltb_spec n (2 ^ 53)); [lia |].
  rewrite Z.sgn_pos by lia.
  set (e := Z.log2 n - 52).
  assert (He : 1 ≤ e).
  { unfold e. pose proof (Z.log2_le_mono _ _ H) as Hl.
    rewrite Z.log2_pow2 in Hl by lia. lia. }
  assert (Hp : 0 < 2 ^ e) by (apply Z.pow_pos_nonneg; lia).
  pose proof (round_half_even_ge n (2 ^ e) Hp) as Hq.
  assert (Hlow : 2 ^ 52 ≤ n / 2 ^ e).
  { apply Z.div_le_lower_bound; [lia |].
    rewrite Z.mul_comm, <- Z.pow_add_r by lia.
    replace (52 + e) with (Z.log2 n) by (unfold e; lia).
    apply Z.log2_spec. lia. }
  assert (H2 : 2 ^ 1 ≤ 2 ^ e) by (apply Z.pow_le_mono_r; lia).
  change (2 ^ 1) with 2 in H2.
  change (2 ^ 53) with (2 ^ 52 * 2).
  rewrite Z.mul_1_l.
  apply Z.mul_le_mono_nonneg; lia.
Qed.


(** Below [2^53] the program computes what the specification says, on
    exact quotients. *)
Lemma format_file_size_exact n :
  0 ≤ n < 2 ^ 53 → format_file_size n = Ret (spec_format_file_size n).
Proof.
  intros [H0 H53].
  unfold format_file_size, spec_format_file_size.
  cbn [format_loop spec_scale Num.lt_kb].
  unfold BYTES_PER_KB. rewrite Z.mul_1_r.
  destruct (Z.ltb_spec n 1024) as [H1 | H1].
  { unfold format_with_unit, Num.format_1f.
    rewrite fl53_small by lia.
    destruct (Z.leb_spec (2 ^ 1024) (Z.abs n)) as [Hbig | _]; [lia |].
    destruct (Z.ltb_spec n 0); [lia |].
    rewrite Z.abs_eq, round_half_even_unit by lia. reflexivity. }
  unfold Num.truediv_kb. rewrite fl53_small by lia.
  destruct (Z.leb_spec (2 ^ 1034) (Z.abs n)) as [Hbig | _]; [lia |].
  cbn [format_loop Num.lt_kb Num.truediv_kb].
  unfold BYTES_PER_KB.
  change (1024 * 2 ^ 10) with (1024 * (1 * 1024)).
  change (1024 * 2 ^ (10 + 10)) with (1024 * (1 * 1024 * 1024)).
  change (1024 * 2 ^ (10 + 10 + 10)) with (1024 * (1 * 1024 * 1024 * 1024)).
  unfold format_with_unit, Num.format_1f.
  destruct (Z.ltb_spec n 0); [lia |].
  rewrite Z.abs_eq by lia.
  destruct (n <? 1024 * (1 * 1024)); [reflexivity |].
  destruct (n <? 1024 * (1 * 1024 * 1024)); [reflexivity |].
  destruct (n <? 1024 * (1 * 1024 * 1024 * 1024)); reflexivity.
Qed.

(** From [2^53] on the unit is TB, and the value is the double nearest to
    the byte count, divided by [1024^4]; when that double would reach
    [2^1034] the first division overflows. *)
Lemma format_file_size_large n :
  2 ^ 53 ≤ n →
  format_file_size n =
    if 2 ^ 1034 <=? Num.fl53 n then Raise OverflowError
    else Ret (Num.render_tenths false
                (Num.round_half_even (10 * Num.fl53 n) (1024 ^ 4)) +:+ " TB")%string.
Proof.
  intros H. pose proof (fl53_large n H) as Hm.
  unfold format_file_size.
  cbn [format_loop Num.lt_kb]. unfold BYTES_PER_KB.
  destruct (Z.ltb_spec n 1024) as [H1 | _]; [lia |].
  unfold Num.truediv_kb.
  rewrite (Z.abs_eq (Num.fl53 n)) by lia.
  destruct (Z.leb_spec (2 ^ 1034) (Num.fl53 n)) as [Hbig | Hbig]; [reflexivity |].
  cbn [format_loop Num.lt_kb Num.truediv_kb].
  unfold BYTES_PER_KB.
  change (1024 * 2 ^ 10) with (2 ^ 20).
  change (1024 * 2 ^ (10 + 10)) with (2 ^ 30).
  change (1024 * 2 ^ (10 + 10 + 10)) with (2 ^ 40).
  assert (H20 : 2 ^ 20 < 2 ^ 53) by reflexivity.
  assert (H30 : 2 ^ 30 < 2 ^ 53) by reflexivity.
  assert (H40 : 2 ^ 40 < 2 ^ 53) by reflexivity.
  destruct (Z.ltb_spec (Num.fl53 n) (2 ^ 20)); [lia |].
  destruct (Z.ltb_spec (Num.fl53 n) (2 ^ 30)); [lia |].
  destruct (Z.ltb_spec (Num.fl53 n) (2 ^ 40)); [lia |].
  unfold format_with_unit, Num.format_1f.
  destruct (Z.ltb_spec (Num.fl53 n) 0); [lia |].
  rewrite Z.abs_eq by lia. reflexivity.
Qed.

End SizeFormatter.

(** C5 (as amended).  For every byte count [0 <= n < 2^53],
    [format_file_size] divides by 1024 through B, KB, MB, GB, TB, stops at
    the first unit where the value is below 1024 (TB being the last unit)
    and returns the exact quotient rounded to one decimal place (a tie to
    the even digit), a space and the unit; from [2^53] on the unit is TB
    and the value rounded is the double nearest to [n] divided by
    [1024^4], and [OverflowError] is raised once that double reaches
    [2^1034].  In particular 0, 1023, 1024, 1536 and 1024*1024 are shown as
    0.0 B, 1023.0 B, 1.0 KB, 1.5 KB and 1.0 MB. *)
Theorem format_file_size_spec (n : Z) :
  0 ≤ n →
  (n < 2 ^ 53 → format_file_size n = Ret (spec_format_file_size n)) ∧
  (2 ^ 53 ≤ n → Num.fl53 n < 2 ^ 1034 →
     format_file_size n =
       Ret (Num.render_tenths false
              (Num.round_half_even (10 * Num.fl53 n) (1024 ^ 4)) +:+ " TB")%string) ∧
  (2 ^ 53 ≤ n → 2 ^ 1034 ≤ Num.fl53 n → format_file_size n = Raise OverflowError) ∧
  format_file_size 0 = Ret "0.0 B"%string ∧
  format_file_size 1023 = Ret "1023.0 B"%string ∧
  format_file_size 1024 = Ret "1.0 KB"%string ∧
  format_file_size 1536 = Ret "1.5 KB"%string ∧
  format_file_size (1024 * 1024) = Ret "1.0 MB"%string.
Proof.
  intros H0. split; [| split; [| split]].
  - intros H. apply format_file_size_exact. lia.
  - intros H Hm. rewrite format_file_size_large by exact H.
    destruct (Z.leb_spec (2 ^ 1034) (Num.fl53 n)); [lia | reflexivity].
  - intros H Hm. rewrite format_file_size_large by exact H.
    destruct (Z.leb_spec (2 ^ 1034) (Num.fl53 n)); [reflexivity | lia].
  - repeat split; vm_compute; reflexivity.
Qed.

Lemma format_file_size_spec_witness :
  0 ≤ 1536 ∧ format_file_size 1536 = Ret (spec_format_file_size 1536) ∧
  spec_format_file_size 1536 = "1.5 KB"%string.
Proof.
  split; [lia |]. split; [| vm_compute; reflexivity].
  destruct (format_file_size_spec 1536) as [Hexact _]; [lia |].
  apply Hexact. reflexivity.
Defined.

(** C5 as stated fails on large counts: a count of [2^1034] bytes makes the
    first division overflow, and for 9007254230322381 bytes (8 PiB and a
    little) the rounding of the count to a double turns the tenth: the exact
    quotient by [1024^4] rounds to 8192.1, the program shows 8192.0. *)
Lemma format_file_size_large_counts :
  format_file_size (2 ^ 1034) = Raise OverflowError ∧
  format_file_size 9007254230322381 = Ret "8192.0 TB"%string ∧
  spec_format_file_size 9007254230322381 = "8192.1 TB"%string.
Proof. repeat split; vm_compute; reflexivity. Qed.

(** ** The selection list *)

Section Selection.

Implicit Types (x f : Path) (l sel files : list Path).

Lemma list_remove_sublist x l : list_remove x l `sublist_of` l.
Proof.
  induction l as [| y l IH]; simpl; [constructor |].
  destruct (decide (x = y)); [apply sublist_cons | apply sublist_skip]; done.
Qed.

Lemma list_remove_notin x l : x ∉ l → list_remove x l = l.
Proof.
  induction l as [| y l IH]; simpl; [done |].
  intros Hx. apply not_elem_of_cons in Hx as [Hne Hx].
  destruct (decide (x = y)); [done |]. by rewrite IH.
Qed.

Lemma list_remove_perm x l : x ∈ l → l ≡ₚ x :: list_remove x l.
Proof.
  induction l as [| y l IH]; simpl; [by intros ?%elem_of_nil |].
  intros Hx. destruct (decide (x = y)) as [-> | Hne]; [done |].
  apply elem_of_cons in Hx as [? | Hx]; [done |].
  rewrite (IH Hx) at 1. apply Permutation_swap.
Qed.

Lemma list_remove_gone x l : NoDup l → x ∉ list_remove x l.
Proof.
  intros Hnd Hin. destruct (decide (x ∈ l)) as [Hx | Hx].
  - apply (NoDup_Permutation_proper _ _ (list_remove_perm x l Hx)) in Hnd.
    apply NoDup_cons in Hnd as [? _]. done.
  - rewrite list_remove_notin in Hin; done.
Qed.

Lemma list_remove_app_last x l : x ∉ l → list_remove x (l ++ [x]) = l.
Proof.
  induction l as [| y l IH]; simpl.
  - intros _. by rewrite decide_True.
  - intros Hx. apply not_elem_of_cons in Hx as [Hne Hx].
    rewrite decide_False by done. by rewrite IH.
Qed.


Lemma toggled_NoDup f sel : NoDup sel → NoDup (toggled f sel).
Proof.
  intros Hnd. unfold toggled. case_bool_decide as Hf.
  - eapply sublist_NoDup; [done | apply list_remove_sublist].
  - apply NoDup_app. split_and!; [done | | apply NoDup_singleton].
    intros y Hy ->%list_elem_of_singleton. done.
Qed.

Lemma toggled_subseteq f sel files : f ∈ files → sel ⊆ files → toggled f sel ⊆ files.
Proof.
  intros Hf Hsub. unfold toggled. case_bool_decide.
  - intros y Hy. apply Hsub. eapply elem_of_sublist; [done | apply list_remove_sublist].
  - intros y [Hy | ->%list_elem_of_singleton]%elem_of_app; auto.
Qed.

Lemma toggled_order f sel :
  (toggled f sel `sublist_of` sel) ∨ ((f ∉ sel) ∧ toggled f sel = sel ++ [f]).
Proof.
  unfold toggled. case_bool_decide; [left; apply list_remove_sublist | right; done].
Qed.

Lemma toggled_twice f sel : NoDup sel → toggled f (toggled f sel) ≡ₚ sel.
Proof.
  intros Hnd. unfold toggled at 2. case_bool_decide as Hf.
  - unfold toggled. rewrite bool_decide_eq_false_2 by by apply list_remove_gone.
    rewrite <- Permutation_cons_append. symmetry. by apply list_remove_perm.
  - unfold toggled. rewrite bool_decide_eq_true_2 by (apply elem_of_app; right; constructor).
    by rewrite list_remove_app_last.
Qed.

Lemma toggled_twice_absent f sel : f ∉ sel → toggled f (toggled f sel) = sel.
Proof.
  intros Hf. unfold toggled at 2. rewrite bool_decide_eq_false_2 by done.
  unfold toggled. rewrite bool_decide_eq_true_2 by (apply elem_of_app; right; constructor).
  by apply list_remove_app_last.
Qed.

Lemma toggled_flips f sel : NoDup sel → f ∈ toggled f sel ↔ f ∉ sel.
Proof.
  intros Hnd. unfold toggled. case_bool_decide as Hf; split.
  - intros Hin. by apply list_remove_gone in Hin.
  - done.
  - done.
  - intros _. apply elem_of_app. right. constructor.
Qed.

(** A string of digits is none of the keywords. *)
Lemma isdigit_not_keyword choice (keywords : list string) :
  Str.isdigit choice = true →
  Forall (λ k, Str.isdigit k = false) keywords →
  one_of choice keywords = false.
Proof.
  intros Hd Hk. apply bool_decide_eq_false_2. intros Hin.
  rewrite Forall_forall in Hk. specialize (Hk _ Hin). congruence.
Qed.

(** The selection after a numeric choice within range. *)
Lemma handle_file_choice_toggle choice files f w :
  Str.isdigit choice = true →
  1 ≤ Str.int choice ≤ Z.of_nat (length files) →
  files !! Z.to_nat (Str.int choice - 1) = Some f →
  ∃ out,
    _handle_file_choice choice files w =
      (Ret true, mkWorld (fs w) (toggled f (selected_files w)) (stdin w)
                         (stdout w ++ [out]) (syscalls w)).
Proof.
  intros Hd Hrange Hf. unfold _handle_file_choice.
  rewrite !(isdigit_not_keyword choice) by first [done | repeat constructor].
  rewrite Hd, Hf.
  destruct (Z.leb_spec 0 (Str.int choice - 1)); [| lia].
  destruct (Z.ltb_spec (Str.int choice - 1) (Z.of_nat (length files))); [| lia].
  unfold toggled, bind, selected, set_selected, print, ret. cbn.
  case_bool_decide; cbn; eauto.
Qed.

(** The selection after any choice: unchanged, emptied, or toggled at a
    listed file. *)
Lemma handle_file_choice_selection choice files w :
  let sel := selected_files w in
  let sel' := selected_files (_handle_file_choice choice files w).2 in
  sel' = sel ∨ sel' = [] ∨ ∃ f, f ∈ files ∧ sel' = toggled f sel.
Proof.
  cbn zeta. unfold _handle_file_choice.
  destruct (one_of choice ["d"; "done"; EmptyString]%string); [cbn; auto |].
  destruct (one_of choice ["q"; "quit"]%string); [cbn; auto |].
  destruct (one_of choice ["c"; "clear"]%string); [cbn; auto |].
  destruct (Str.isdigit choice); [| cbn; auto].
  destruct ((0 <=? Str.int choice - 1) && (Str.int choice - 1 <? Z.of_nat (length files)));
    [| cbn; auto].
  destruct (files !! Z.to_nat (Str.int choice - 1)) as [f |] eqn:Hf; [| cbn; auto].
  right; right. exists f. split; [eapply list_elem_of_lookup_2; eassumption |].
  unfold toggled, bind, selected, set_selected, print, ret. cbn.
  case_bool_decide; reflexivity.
Qed.

End Selection.

Section Selector.

Implicit Types (files sel : list Path) (w : World).

Lemma selection_ok_nil files : selection_ok files [].
Proof. split; [constructor | intros x Hx; by apply elem_of_nil in Hx]. Qed.

Lemma selection_ok_length files sel :
  selection_ok files sel → (length sel ≤ length files)%nat.
Proof. intros [Hnd Hsub]. apply submseteq_length, NoDup_submseteq; done. Qed.

Lemma handle_file_choice_ok choice files w :
  selection_ok files (selected_files w) →
  selection_ok files (selected_files (_handle_file_choice choice files w).2).
Proof.
  intros [Hnd Hsub].
  destruct (handle_file_choice_selection choice files w) as [-> | [-> | (f & Hf & ->)]].
  - done.
  - apply selection_ok_nil.
  - split; [by apply toggled_NoDup | by apply toggled_subseteq].
Qed.

Lemma handle_file_choice_returns choice files w :
  ∃ b, (_handle_file_choice choice files w).1 = Ret b.
Proof.
  unfold _handle_file_choice, bind, selected, set_selected, print, ret.
  repeat (case_match; cbn in *; simplify_eq; eauto).
Qed.

Lemma handle_choices_ok choices files w :
  selection_ok files (selected_files w) →
  selection_ok files (selected_files (handle_choices choices files w).2).
Proof.
  revert w. induction choices as [| c cs IH]; intros w Hok; [done |].
  cbn [handle_choices]. unfold bind.
  pose proof (handle_file_choice_ok c files w Hok) as Hok'.
  destruct (handle_file_choice_returns c files w) as [b Hb].
  destruct (_handle_file_choice c files w) as [o w1]. cbn in Hb, Hok'. subst o.
  by apply IH.
Qed.

(** The loop of [choose_files] keeps the selection well formed. *)
Lemma choose_files_loop_ok fuel directory files w :
  selection_ok files (selected_files w) →
  selection_ok files (selected_files (choose_files_loop fuel directory files w).2).
Proof.
  revert w. induction fuel as [| fuel IH]; intros w Hok; [done |].
  cbn [choose_files_loop]. unfold bind at 1.
  pose proof (keeps_display_file_menu directory files w) as Hd.
  destruct (_display_file_menu directory files w) as [[choice | e |] w1];
    cbn in Hd; rewrite <- Hd in Hok; [| done | done].
  unfold bind.
  pose proof (handle_file_choice_ok choice files w1 Hok) as Hok'.
  destruct (_handle_file_choice choice files w1) as [[[] | e |] w2]; cbn in Hok' |- *; auto.
Qed.

End Selector.

(** C6.  In a file selector session started with the empty selection, after
    any sequence of choices (numbers, clear, anything else) the selection
    has no path twice, holds only listed files and is no longer than the
    listing; the next choice either keeps the remaining paths in their
    order or appends one listed file at the end.  The same holds of the
    selection in every state the loop of [choose_files] reaches. *)
Theorem selection_invariant (files : list Path) (choices : list string) (choice : string)
    (directory : Path) (fuel : nat) (w : World) :
  selected_files w = [] →
  let before := selected_files (handle_choices choices files w).2 in
  let after :=
    selected_files (_handle_file_choice choice files (handle_choices choices files w).2).2 in
  (NoDup before ∧ before ⊆ files ∧ (length before ≤ length files)%nat) ∧
  ((after `sublist_of` before) ∨ (∃ f, f ∈ files ∧ (f ∉ before) ∧ after = before ++ [f])) ∧
  selection_ok files (selected_files (choose_files_loop fuel directory files w).2).
Proof.
  intros Hempty before after.
  assert (Hok : selection_ok files (selected_files w))
    by (rewrite Hempty; apply selection_ok_nil).
  assert (Hb : selection_ok files before) by by apply handle_choices_ok.
  split; [| split].
  - destruct Hb as [Hnd Hsub]. split_and!; [done | done |].
    by apply selection_ok_length.
  - subst after.
    destruct (handle_file_choice_selection choice files (handle_choices choices files w).2)
      as [-> | [-> | (f & Hf & ->)]]; fold before.
    + by left.
    + left. apply sublist_nil_l.
    + destruct (toggled_order f before) as [? | [? ?]]; [by left | right; eauto].
  - by apply choose_files_loop_ok.
Qed.


Lemma selection_invariant_witness :
  selected_files demo_idle = [] ∧
  let before :=
    selected_files (handle_choices ["1"; "3"; "1"; "2"]%string demo_listing demo_idle).2 in
  let after :=
    selected_files (_handle_file_choice "3"%string demo_listing
      (handle_choices ["1"; "3"; "1"; "2"]%string demo_listing demo_idle).2).2 in
  (NoDup before ∧ before ⊆ demo_listing ∧ (length before ≤ length demo_listing)%nat) ∧
  ((after `sublist_of` before) ∨
   (∃ f, f ∈ demo_listing ∧ (f ∉ before) ∧ after = before ++ [f])) ∧
  selection_ok demo_listing
    (selected_files (choose_files_loop 0 ["d"%string] demo_listing demo_idle).2).
Proof.
  split; [reflexivity |].
  apply (selection_invariant demo_listing ["1"; "3"; "1"; "2"]%string "3"%string
           ["d"%string] 0 demo_idle).
  reflexivity.
Defined.

(** C7.  For a valid 1-indexed file number and a selection without
    repetition (as every selection of a session is), choosing the number
    twice in succession gives back a selection with exactly the paths it
    had: the first choice flips the membership of that file and of no
    other, the second flips it back; when the file was not selected the
    list is the very same again. *)
Theorem toggle_twice (choice : string) (files : list Path) (f : Path) (w : World) :
  Str.isdigit choice = true →
  1 ≤ Str.int choice ≤ Z.of_nat (length files) →
  files !! Z.to_nat (Str.int choice - 1) = Some f →
  NoDup (selected_files w) →
  let once := selected_files (_handle_file_choice choice files w).2 in
  let twice :=
    selected_files (_handle_file_choice choice files (_handle_file_choice choice files w).2).2 in
  (∀ x, x ∈ twice ↔ x ∈ selected_files w) ∧
  twice ≡ₚ selected_files w ∧
  (f ∈ once ↔ f ∉ selected_files w) ∧
  (∀ x, x ≠ f → x ∈ once ↔ x ∈ selected_files w) ∧
  (f ∉ selected_files w → twice = selected_files w).
Proof.
  intros Hd Hrange Hf Hnd once twice.
  destruct (handle_file_choice_toggle choice files f w Hd Hrange Hf) as [out1 H1].
  subst once twice. rewrite H1. cbn [snd].
  destruct (handle_file_choice_toggle choice files f
    (mkWorld (fs w) (toggled f (selected_files w)) (stdin w)
       (stdout w ++ [out1]) (syscalls w)) Hd Hrange Hf) as [out2 H2].
  rewrite H2. cbn [snd selected_files].
  pose proof (toggled_twice f (selected_files w) Hnd) as Hperm.
  split_and!.
  - intros x. by rewrite Hperm.
  - done.
  - by apply toggled_flips.
  - intros x Hx. unfold toggled. case_bool_decide as Hin.
    + rewrite (list_remove_perm f (selected_files w) Hin) at 2.
      rewrite elem_of_cons. split; [auto | intros [? | ?]; done].
    + rewrite elem_of_app, list_elem_of_singleton. split; [intros [? | ?]; done | auto].
  - apply toggled_twice_absent.
Qed.

Lemma toggle_twice_witness :
  let w := mkWorld ∅ [["d"; "c"]; ["d"; "b"]]%string [] [] [] in
  let twice :=
    selected_files (_handle_file_choice "2"%string demo_listing
                      (_handle_file_choice "2"%string demo_listing w).2).2 in
  twice ≡ₚ selected_files w.
Proof.
  intros w twice.
  refine (proj1 (proj2 (toggle_twice "2"%string demo_listing ["d"; "b"]%string w _ _ _ _))).
  - reflexivity.
  - vm_compute. split; discriminate.
  - reflexivity.
  - refine (bool_decide_unpack _ _). vm_compute. exact I.
Defined.

(** ** The directory navigator *)

Lemma parent_fixed (p : Path) : parent p = p ↔ p = [].
Proof.
  split; [| by intros ->].
  destruct p as [| a p] using rev_ind; [done |].
  unfold parent. rewrite removelast_last. intros H.
  apply (f_equal length) in H. rewrite length_app in H. cbn in H. lia.
Qed.

Lemma parent_prefix (p : Path) : parent p `prefix_of` p.
Proof.
  destruct p as [| a p _] using rev_ind; [done |].
  unfold parent. rewrite removelast_last. by apply prefix_app_r.
Qed.


(** ** The path lister *)

Section PathOrder.

Lemma compare_refl (s : string) : String.compare s s = Eq.
Proof. by apply String_as_OT.cmp_eq. Qed.

Lemma compare_lt_trans (a b c : string) :
  String.compare a b = Lt → String.compare b c = Lt → String.compare a c = Lt.
Proof.
  intros H1%String_as_OT.cmp_lt H2%String_as_OT.cmp_lt.
  apply String_as_OT.cmp_lt. eapply String_as_OT.lt_trans; eassumption.
Qed.

Lemma compare_gt_lt (a b : string) : String.compare a b = Gt → String.compare b a = Lt.
Proof. intros H. rewrite String.compare_antisym, H. reflexivity. Qed.

#[global] Instance path_le_total : Total path_le.
Proof.
  intros p. unfold path_le. induction p as [| a p IH]; intros [| b q]; cbn; auto.
  destruct (String.compare a b) eqn:Hab; auto.
  - apply String.compare_eq_iff in Hab as ->. rewrite compare_refl. apply IH.
  - rewrite (compare_gt_lt _ _ Hab). auto.
Qed.

#[global] Instance path_le_trans : Transitive path_le.
Proof.
  intros p. unfold path_le. induction p as [| a p IH]; intros [| b q] [| c r]; cbn; try done.
  destruct (String.compare a b) eqn:Hab; [| | done].
  - apply String.compare_eq_iff in Hab as ->.
    destruct (String.compare b c); [apply IH | done | done].
  - destruct (String.compare b c) eqn:Hbc; [| | done].
    + apply String.compare_eq_iff in Hbc as ->. by rewrite Hab.
    + by rewrite (compare_lt_trans _ _ _ Hab Hbc).
Qed.

Lemma path_leb_app (d x y : Path) : path_leb (d ++ x) (d ++ y) = path_leb x y.
Proof. induction d as [| a d IH]; cbn; [done |]. by rewrite compare_refl. Qed.

Lemma child_split (d p : Path) : Posix.is_child_of d p → p = d ++ [name p].
Proof.
  intros [Hne <-]. unfold parent, name.
  destruct p as [| a p _] using rev_ind; [done |].
  by rewrite removelast_last, last_snoc.
Qed.

(** Among the entries of one directory the order of paths is the order of
    names. *)
Lemma siblings_name_lt (d p q : Path) :
  Posix.is_child_of d p → Posix.is_child_of d q → path_le p q → p ≠ q → name_lt p q.
Proof.
  intros Hp%child_split Hq%child_split Hle Hne. unfold name_lt, path_le in *.
  rewrite Hp, Hq, path_leb_app in Hle. cbn in Hle.
  destruct (String.compare (name p) (name q)) eqn:Hc; [| done | done].
  apply String.compare_eq_iff in Hc. destruct Hne. by rewrite Hp, Hq, Hc.
Qed.

Lemma StronglySorted_filter {A} (R : relation A) (P : A → Prop) `{!∀ x, Decision (P x)} l :
  StronglySorted R l → StronglySorted R (filter P l).
Proof.
  induction 1 as [| x l Hs IH Hx]; [constructor |].
  rewrite filter_cons. destruct (decide (P x)); [| done].
  constructor; [done |]. rewrite Forall_forall in Hx |- *.
  intros y [_ Hy]%list_elem_of_filter. auto.
Qed.

Lemma siblings_sorted (d : Path) (l : list Path) :
  Forall (Posix.is_child_of d) l → NoDup l → StronglySorted path_le l →
  StronglySorted name_lt l.
Proof.
  intros Hch Hnd Hs. induction Hs as [| x l Hs IH Hx]; [constructor |].
  apply Forall_cons in Hch as [Hcx Hch]. apply NoDup_cons in Hnd as [Hnx Hnd].
  constructor; [auto |].
  rewrite Forall_forall in Hx, Hch |- *. intros y Hy.
  apply (siblings_name_lt d); auto. by intros ->.
Qed.

End PathOrder.

Section Lister.

Implicit Types (fs : FS) (d p : Path).

Lemma resolve_from_canonical fs cur p :
  ".."%string ∉ p → Posix.resolve_from fs cur p = Some (cur ++ p).
Proof.
  revert cur. induction p as [| c p IH]; intros cur Hp; cbn.
  - by rewrite app_nil_r.
  - apply not_elem_of_cons in Hp as [Hc Hp].
    rewrite decide_False by done. rewrite IH by done. by rewrite <- app_assoc.
Qed.

Lemma lstat_canonical fs p : ".."%string ∉ p → Posix.lstat fs p = fs !! p.
Proof. intros Hp. unfold Posix.lstat, Posix.resolve. by rewrite resolve_from_canonical. Qed.

Lemma elem_of_children fs d p :
  p ∈ Posix.children fs d ↔ Posix.is_child_of d p ∧ is_Some (fs !! p).
Proof.
  unfold Posix.children. rewrite list_elem_of_filter, list_elem_of_fmap.
  split.
  - intros [Hc ([q i] & -> & Hin)]. apply elem_of_map_to_list in Hin. eauto.
  - intros [Hc [i Hi]]. split; [done |]. exists (p, i). split; [done |].
    by apply elem_of_map_to_list.
Qed.

Lemma NoDup_children fs d : NoDup (Posix.children fs d).
Proof. apply NoDup_filter, NoDup_fst_map_to_list. Qed.

(** A real directory: a directory that is not a symbolic link. *)
Lemma real_directory fs p :
  ".."%string ∉ p →
  path_is_dir fs p && negb (path_is_symlink fs p) = true ↔
  ∃ j, fs !! p = Some j ∧ kind j = S_IFDIR.
Proof.
  intros Hp. unfold path_is_dir, path_is_symlink, Posix.stat. cbn [Posix.follow].
  rewrite lstat_canonical by done.
  destruct (fs !! p) as [j |]; [| split; [done | by intros (? & ? & ?)]].
  destruct (kind j) eqn:Hk; cbn; rewrite ?Hk; cbn;
    (split; [intros H | intros (? & [= <-] & ?)]; try done; try congruence; eauto).
  all: rewrite andb_false_r in H; done.
Qed.

(** A regular file: a file that is not a symbolic link. *)
Lemma real_file fs p :
  ".."%string ∉ p →
  path_is_file fs p && negb (path_is_symlink fs p) = true ↔
  ∃ j, fs !! p = Some j ∧ kind j = S_IFREG.
Proof.
  intros Hp. unfold path_is_file, path_is_symlink, Posix.stat. cbn [Posix.follow].
  rewrite lstat_canonical by done.
  destruct (fs !! p) as [j |]; [| split; [done | by intros (? & ? & ?)]].
  destruct (kind j) eqn:Hk; cbn; rewrite ?Hk; cbn;
    (split; [intros H | intros (? & [= <-] & ?)]; try done; try congruence; eauto).
  all: rewrite andb_false_r in H; done.
Qed.

End Lister.

Section Listing.

Variables (w : World) (d : Path) (i : inode).
Hypothesis canonical : canonical_keys (fs w).
Hypothesis there : Posix.stat (fs w) d = inr i.
Hypothesis is_directory : kind i = S_IFDIR.
Hypothesis may_read : readable i = true.

Lemma scandir_readable : Posix.scandir (fs w) d = inr (Posix.children (fs w) d).
Proof using there is_directory may_read.
  unfold Posix.scandir. by rewrite there, is_directory, may_read.
Qed.


Lemma get_directories_readable : get_directories d w = (Ret (listed_directories (fs w) d), w).
Proof using there is_directory may_read.
  unfold get_directories, try_except, bind, query, ask. by rewrite scandir_readable.
Qed.

Lemma get_files_readable : get_files d w = (Ret (listed_files (fs w) d), w).
Proof using there is_directory may_read.
  unfold get_files, try_except, ask, glob_star. by rewrite scandir_readable.
Qed.

Lemma sorted_children_sorted (P : Path → Prop) `{!∀ x, Decision (P x)} :
  StronglySorted name_lt (filter P (merge_sort path_le (Posix.children (fs w) d))).
Proof.
  apply (siblings_sorted d).
  - rewrite Forall_forall. intros p [_ Hp]%list_elem_of_filter.
    rewrite merge_sort_Permutation in Hp. by apply elem_of_children in Hp as [? _].
  - apply NoDup_filter. rewrite merge_sort_Permutation. apply NoDup_children.
  - apply StronglySorted_filter, StronglySorted_merge_sort; apply _.
Qed.

Lemma elem_of_listed_directories p :
  p ∈ listed_directories (fs w) d ↔
  Posix.is_child_of d p ∧ ∃ j, fs w !! p = Some j ∧ kind j = S_IFDIR.
Proof using canonical.
  unfold listed_directories.
  rewrite list_elem_of_filter, merge_sort_Permutation, elem_of_children, Is_true_true.
  split.
  - intros [Hreal [Hc [j Hj]]]. split; [done |].
    apply real_directory; [by eapply canonical | done].
  - intros [Hc (j & Hj & Hk)]. split_and!; [| done | by eexists].
    apply real_directory; [by eapply canonical | eauto].
Qed.

Lemma elem_of_listed_files p :
  p ∈ listed_files (fs w) d ↔
  Posix.is_child_of d p ∧ ∃ j, fs w !! p = Some j ∧ kind j = S_IFREG.
Proof using canonical.
  unfold listed_files.
  rewrite list_elem_of_filter, merge_sort_Permutation, elem_of_children, Is_true_true.
  split.
  - intros [Hreal [Hc [j Hj]]]. split; [done |].
    apply real_file; [by eapply canonical | done].
  - intros [Hc (j & Hj & Hk)]. split_and!; [| done | by eexists].
    apply real_file; [by eapply canonical | eauto].
Qed.

End Listing.



Lemma canonical_keys_decide (fs : FS) :
  forallb (λ p, bool_decide (".."%string ∉ p)) (map_to_list fs).*1 = true →
  canonical_keys fs.
Proof.
  intros H p i Hp. rewrite forallb_forall in H.
  specialize (H p). rewrite bool_decide_eq_true in H. apply H.
  apply list_elem_of_In, list_elem_of_fmap. exists (p, i). split; [done |].
  by apply elem_of_map_to_list.
Qed.


(** ** Delete *)

Section Delete.

Implicit Types (w : World) (l : list Path).

Lemma world_eta w :
  mkWorld (fs w) (selected_files w) (stdin w) (stdout w) (syscalls w) = w.
Proof. by destruct w. Qed.

Lemma shown_size_cases (fs : FS) p :
  displayable fs p ∨ ∃ e, shown_size fs p = Raise e.
Proof.
  unfold displayable, shown_size. destruct (Posix.stat fs p) as [e | st]; [eauto |].
  pose proof (format_file_size_total (st_size st)).
  destruct (format_file_size (st_size st)); [eauto | eauto | done].
Qed.

Lemma displayable_all_cases (fs : FS) l :
  Forall (displayable fs) l ∨ ¬ Forall (displayable fs) l.
Proof.
  induction l as [| p l [IH | IH]].
  - left. constructor.
  - destruct (shown_size_cases fs p) as [Hp | [e He]].
    + left. by constructor.
    + right. intros [[s Hs] _]%Forall_cons. congruence.
  - right. by intros [_ ?]%Forall_cons.
Qed.

Lemma delete_entry_shown file w :
  delete_entry file w =
    match shown_size (fs w) file with
    | Ret s => (Ret tt, mkWorld (fs w) (selected_files w) (stdin w)
                          (stdout w ++ [MsgDeleteEntry (name file) s]) (syscalls w))
    | Raise e => (Raise e, w)
    | OutOfFuel => (OutOfFuel, w)
    end.
Proof.
  unfold delete_entry, shown_size, bind, path_stat, query, lift, print.
  destruct (Posix.stat (fs w) file) as [e | st]; [done |].
  by destruct (format_file_size (st_size st)).
Qed.

(** The listing loop when every file can be shown. *)
Lemma listing_loop fuel i w :
  (length (selected_files w) - i < fuel)%nat →
  Forall (displayable (fs w)) (drop i (selected_files w)) →
  for_from fuel i (λ file _, delete_entry file) tt w =
    (Ret tt, mkWorld (fs w) (selected_files w) (stdin w)
               (stdout w ++ delete_listing (fs w) (drop i (selected_files w)))
               (syscalls w)).
Proof.
  revert i w. induction fuel as [| fuel IH]; intros i w Hfuel Hall; [lia |].
  cbn [for_from]. destruct (selected_files w !! i) as [file |] eqn:Hi.
  - pose proof (lookup_lt_Some _ _ _ Hi) as Hlt.
    rewrite (lookup_drop_cons _ _ _ Hi) in Hall |- *.
    apply Forall_cons in Hall as [[s Hs] Hall].
    unfold bind. rewrite delete_entry_shown, Hs.
    rewrite IH; cbn [fs selected_files stdin stdout syscalls]; [| lia | done].
    unfold delete_listing. cbn. rewrite Hs. cbn. by rewrite <- app_assoc.
  - apply lookup_ge_None in Hi. rewrite drop_ge by done.
    unfold delete_listing. cbn. by rewrite app_nil_r, world_eta.
Qed.

(** The listing loop when some file cannot be shown: it raises, before
    anything is asked. *)
Lemma listing_loop_raises fuel i w :
  (length (selected_files w) - i < fuel)%nat →
  ¬ Forall (displayable (fs w)) (drop i (selected_files w)) →
  ∃ e, (for_from fuel i (λ file _, delete_entry file) tt w).1 = Raise e.
Proof.
  revert i w. induction fuel as [| fuel IH]; intros i w Hfuel Hnot; [lia |].
  cbn [for_from]. destruct (selected_files w !! i) as [file |] eqn:Hi.
  - pose proof (lookup_lt_Some _ _ _ Hi) as Hlt.
    rewrite (lookup_drop_cons _ _ _ Hi) in Hnot.
    unfold bind. rewrite delete_entry_shown.
    destruct (shown_size_cases (fs w) file) as [[s Hs] | [e He]].
    + rewrite Hs. apply IH; cbn [fs selected_files]; [lia |].
      intros Hall. apply Hnot. constructor; [by exists s | done].
    + rewrite He. eauto.
  - apply lookup_ge_None in Hi. rewrite drop_ge in Hnot by done.
    destruct Hnot. constructor.
Qed.

Lemma unlink_error_class (fs : FS) p e : Posix.unlink fs p = inl e → is_OSError e = true.
Proof.
  unfold Posix.unlink. repeat case_match; intros [= <-]; reflexivity.
Qed.

(** The deleting loop does what [unlink_all] says. *)
Lemma deleting_loop fuel i n w done fs' failure :
  (length (selected_files w) - i < fuel)%nat →
  unlink_all (fs w) (drop i (selected_files w)) = (done, fs', failure) →
  delete_loop fuel i n w =
    (Ret (n + length done)%nat,
     mkWorld fs' (selected_files w) (stdin w)
       (stdout w ++ delete_report done failure)
       (syscalls w ++ delete_calls done failure)).
Proof.
  revert i n w done fs' failure.
  induction fuel as [| fuel IH]; intros i n w done fs' failure Hfuel Hall; [lia |].
  cbn [delete_loop]. destruct (selected_files w !! i) as [file |] eqn:Hi.
  - pose proof (lookup_lt_Some _ _ _ Hi) as Hlt.
    rewrite (lookup_drop_cons _ _ _ Hi) in Hall. cbn [unlink_all] in Hall.
    unfold bind, try_except, path_unlink, print, ret.
    destruct (Posix.unlink (fs w) file) as [e | fs1] eqn:Hu.
    + injection Hall as <- <- <-.
      rewrite (unlink_error_class _ _ _ Hu). cbn.
      by rewrite Nat.add_0_r.
    + destruct (unlink_all fs1 (drop (S i) (selected_files w)))
        as [[done1 fs2] failure1] eqn:Hrest.
      injection Hall as <- <- <-.
      erewrite IH; [| cbn; lia | cbn; exact Hrest].
      cbn [fs selected_files stdin stdout syscalls length].
      unfold delete_report, delete_calls. cbn [fmap list_fmap].
      rewrite <- !app_assoc. cbn. by rewrite Nat.add_succ_r.
  - apply lookup_ge_None in Hi. rewrite drop_ge in Hall by done.
    injection Hall as <- <- <-. unfold delete_report, delete_calls. cbn.
    by rewrite Nat.add_0_r, !app_nil_r, world_eta.
Qed.

(** What [unlink_all] returns: the files before the first failure, and
    the failing file right after them. *)
Lemma unlink_all_split (fs : FS) l done fs' failure :
  unlink_all fs l = (done, fs', failure) →
  match failure with
  | None => l = done
  | Some (p, e) => (∃ later, l = done ++ p :: later) ∧ Posix.unlink fs' p = inl e
  end.
Proof.
  revert fs done. induction l as [| p l IH]; intros fs done; cbn.
  - by intros [= <- <- <-].
  - destruct (Posix.unlink fs p) as [e | fs1] eqn:Hu.
    + intros [= <- <- <-]. split; [by exists l | done].
    + destruct (unlink_all fs1 l) as [[done1 fs2] failure1] eqn:Hrest.
      intros [= <- <- <-]. specialize (IH _ _ Hrest).
      destruct failure1 as [[q e] |]; [| by rewrite IH].
      destruct IH as [[later ->] ?]. split; [by exists later | done].
Qed.

End Delete.

(** C1.  For a non-empty selection whose deletion is confirmed with y or
    yes (the question is asked once every selected file has been shown with
    its size, which is what [displayable] requires), [delete_files] unlinks
    the files in the order of the selection and stops at the first one for
    which the system reports an error: the calls it makes are the
    successful unlinks of the files before it and the failed one, nothing
    being attempted for the files after it; it reports each deletion, the
    failure, and last the number of files deleted out of the number
    selected. *)
Theorem delete_stops_at_first_error (w : World) (t : typed) (rest : list typed)
    (done : list Path) (fs' : FS) (failure : option (Path * exn)) :
  selected_files w ≠ [] →
  Forall (displayable (fs w)) (selected_files w) →
  stdin w = t :: rest →
  one_of (Str.lower (Str.strip (text t))) ["y"; "yes"]%string = true →
  unlink_all (meanwhile t (fs w)) (selected_files w) = (done, fs', failure) →
  let files := selected_files w in
  delete_files w =
    (Ret tt,
     mkWorld fs' files rest
       (stdout w ++ [MsgDeleting (length files)] ++ delete_listing (fs w) files ++
        [MsgPrompt (PromptDeleteAll (length files))] ++ delete_report done failure ++
        [MsgDeletedSummary (length done) (length files)])
       (syscalls w ++ delete_calls done failure)) ∧
  match failure with
  | None => files = done
  | Some (p, e) =>
      (∃ later, files = done ++ p :: later) ∧ Posix.unlink fs' p = inl e ∧
      is_OSError e = true
  end.
Proof.
  intros Hne Hshown Hin Hyes Hall files. split.
  - unfold delete_files. unfold bind at 1, selected at 1. fold files.
    destruct files as [| f l] eqn:Hfiles; [done |]. rewrite <- Hfiles.
    unfold bind at 1, print at 1. unfold bind at 1, for_selected.
    rewrite listing_loop; cbn [fs selected_files stdin stdout syscalls]; [| lia | by rewrite drop_0].
    rewrite drop_0. unfold bind at 1, selected at 1.
    cbn [fs selected_files stdin stdout syscalls].
    unfold bind at 1, input at 1. cbn [fs selected_files stdin stdout syscalls].
    rewrite Hin. cbn [text meanwhile]. rewrite Hyes. cbn [negb].
    unfold bind at 1.
    erewrite deleting_loop; cbn [fs selected_files stdin stdout syscalls];
      [| lia | by rewrite drop_0].
    unfold bind, selected, print. cbn [fs selected_files stdin stdout syscalls].
    fold files. rewrite Nat.add_0_l, <- !app_assoc. reflexivity.
  - pose proof (unlink_all_split _ _ _ _ _ Hall) as Hsplit.
    destruct failure as [[p e] |]; [| done].
    destruct Hsplit as [Hlater Hu]. split_and!; [done | done |].
    by eapply unlink_error_class.
Qed.


(** When a selected path is already gone as [delete_files] starts, the
    listing before the question raises: nothing is asked, nothing is
    deleted, and the exception leaves [delete_files]. *)
Lemma delete_files_listing_fails (w : World) :
  selected_files w ≠ [] →
  ¬ Forall (displayable (fs w)) (selected_files w) →
  ∃ e w', delete_files w = (Raise e, w') ∧
          syscalls w' = syscalls w ∧ stdin w' = stdin w ∧ fs w' = fs w.
Proof.
  intros Hne Hnot.
  unfold delete_files. unfold bind at 1, selected at 1.
  destruct (selected_files w) as [| f l] eqn:Hfiles; [done |]. rewrite <- Hfiles in *.
  unfold bind at 1, print at 1. unfold bind at 1, for_selected.
  cbn [fs selected_files stdin stdout syscalls].
  match goal with |- context [for_from ?n 0 ?b tt ?w1] =>
    destruct (listing_loop_raises n 0 w1) as [e He];
      [cbn; lia | by rewrite drop_0 |];
    pose proof (keeps_for_from syscalls b n 0 tt ltac:(intros; unfold delete_entry; frame) w1) as Hk;
    pose proof (keeps_for_from stdin b n 0 tt ltac:(intros; unfold delete_entry; frame) w1) as Hi;
    pose proof (keeps_for_from fs b n 0 tt ltac:(intros; unfold delete_entry; frame) w1) as Hf;
    destruct (for_from n 0 b tt w1) as [o w2]
  end.
  cbn in He, Hk, Hi, Hf. subst o. by exists e, w2.
Qed.


Lemma delete_stops_at_first_error_witness :
  delete_files demo_race =
    (Ret tt,
     mkWorld (delete demo_a (delete demo_b demo_tree)) [demo_a; demo_b; demo_c] []
       [MsgDeleting 3;
        MsgDeleteEntry "a" "10.0 B"; MsgDeleteEntry "b" "2.0 KB"; MsgDeleteEntry "c" "5.0 B";
        MsgPrompt (PromptDeleteAll 3);
        MsgDeleted "a"; MsgErrorDeleting "b" FileNotFoundError;
        MsgDeletedSummary 1 3]
       [SysUnlink demo_a true; SysUnlink demo_b false]).
Proof.
  destruct (delete_stops_at_first_error demo_race (Typed (delete demo_b) "y") []
              [demo_a] (delete demo_a (delete demo_b demo_tree))
              (Some (demo_b, FileNotFoundError))) as [Hrun _].
  - discriminate.
  - repeat constructor; eexists; vm_compute; reflexivity.
  - reflexivity.
  - vm_compute. reflexivity.
  - vm_compute. reflexivity.
  - rewrite Hrun. vm_compute. reflexivity.
Defined.

(** The same three files, the second already gone when [delete_files]
    starts: the listing raises at it and no file is deleted. *)
Example delete_files_stale_at_start :
  delete_files (mkWorld (delete demo_b demo_tree) [demo_a; demo_b; demo_c]
                        [quiet "y"] [] []) =
    (Raise FileNotFoundError,
     mkWorld (delete demo_b demo_tree) [demo_a; demo_b; demo_c] [quiet "y"]
       [MsgDeleting 3; MsgDeleteEntry "a" "10.0 B"] []).
Proof. vm_compute. reflexivity. Qed.


(** ** Rename *)

Section RenameOne.

Variables (file : Path) (w : World) (t : typed) (rest : list typed).
Hypothesis typed_next : stdin w = t :: rest.

Let new_name := Str.strip (text t).
Let new_path := joinpath (parent file) new_name.
Let asked : list Msg := stdout w ++ [MsgCurrent (name file); MsgPrompt PromptNewName].
Let now : FS := meanwhile t (fs w).

Lemma rename_one_asks :
  rename_one file w =
    (if decide (new_name = EmptyString) then print MsgSkipped
     else if negb (_validate_filename new_name) then print MsgInvalidFilename
     else
       there <- ask (λ fs, path_exists fs new_path) ;;
       if there then print (MsgAlreadyExists new_name)
       else
         try_except
           (path_rename file new_path ;;; print (MsgRenamedTo new_name))
           is_OSError
           (λ e, print (MsgErrorRenaming (name file) e)))
    (mkWorld now (selected_files w) rest asked (syscalls w)).
Proof using typed_next.
  unfold rename_one. unfold bind at 1, print at 1. unfold bind at 1, input at 1.
  cbn [fs selected_files stdin stdout syscalls]. rewrite typed_next.
  subst asked. by rewrite <- app_assoc.
Qed.

Lemma rename_error_class (fs : FS) (src dst : Path) (e : exn) :
  Posix.rename fs src dst = inl e → is_OSError e = true.
Proof.
  unfold Posix.rename. repeat case_match; intros [= <-]; reflexivity.
Qed.

(** The names that make [rename_files] pass a file over, and what it
    prints for each: the file system is not touched by the program, and
    the body returns, so that the loop goes on to the next file. *)
Lemma rename_one_skips :
  (new_name = EmptyString →
   rename_one file w =
     (Ret tt, mkWorld now (selected_files w) rest (asked ++ [MsgSkipped]) (syscalls w))) ∧
  (new_name ≠ EmptyString → _validate_filename new_name = false →
   rename_one file w =
     (Ret tt, mkWorld now (selected_files w) rest (asked ++ [MsgInvalidFilename])
                (syscalls w))) ∧
  (new_name ≠ EmptyString → _validate_filename new_name = true →
   path_exists now new_path = true →
   rename_one file w =
     (Ret tt, mkWorld now (selected_files w) rest (asked ++ [MsgAlreadyExists new_name])
                (syscalls w))) ∧
  (∀ e, new_name ≠ EmptyString → _validate_filename new_name = true →
   path_exists now new_path = false →
   Posix.rename now file new_path = inl e →
   rename_one file w =
     (Ret tt, mkWorld now (selected_files w) rest
                (asked ++ [MsgErrorRenaming (name file) e])
                (syscalls w ++ [SysRename file new_path false]))).
Proof using typed_next.
  rewrite rename_one_asks. split_and!.
  - intros ->. by rewrite decide_True.
  - intros Hne Hbad. by rewrite decide_False, Hbad.
  - intros Hne Hok Hthere. rewrite decide_False, Hok by done. cbn [negb].
    unfold bind, ask. cbn [fs]. by rewrite Hthere.
  - intros e Hne Hok Hfree Hfail. rewrite decide_False, Hok by done. cbn [negb].
    unfold bind at 1, ask. cbn [fs]. rewrite Hfree.
    unfold try_except, bind, path_rename. cbn [fs]. rewrite Hfail.
    by rewrite (rename_error_class _ _ _ _ Hfail).
Qed.

(** A rename that goes through. *)
Lemma rename_one_renames (fs1 : FS) :
  new_name ≠ EmptyString → _validate_filename new_name = true →
  path_exists now new_path = false →
  Posix.rename now file new_path = inr fs1 →
  rename_one file w =
    (Ret tt, mkWorld fs1 (selected_files w) rest (asked ++ [MsgRenamedTo new_name])
               (syscalls w ++ [SysRename file new_path true])).
Proof using typed_next.
  intros Hne Hok Hfree Hdone. rewrite rename_one_asks.
  rewrite decide_False, Hok by done. cbn [negb].
  unfold bind at 1, ask. cbn [fs]. rewrite Hfree.
  unfold try_except, bind, path_rename, print. cbn [fs]. by rewrite Hdone.
Qed.

End RenameOne.

(** After a regular file has been renamed its old path names nothing. *)
Lemma rename_leaves_old_path (fs fs1 : FS) (file dst : Path) (i : inode) :
  ".."%string ∉ file → fs !! file = Some i → kind i = S_IFREG →
  path_exists fs dst = false →
  Posix.rename fs file dst = inr fs1 →
  fs1 !! file = None.
Proof.
  intros Hcan Hfile Hreg Hfree.
  unfold Posix.rename. unfold Posix.resolve at 1. rewrite resolve_from_canonical by done.
  cbn [app]. destruct (Posix.resolve fs dst) as [kd |] eqn:Hkd; [| done].
  rewrite Hfile. destruct (fs !! parent kd) as [pd |]; [| done].
  destruct (negb (is_dir_kind (kind pd))); [done |].
  destruct (negb _); [done |].
  destruct (decide (file = kd)) as [<- | Hne].
  { exfalso. unfold path_exists, Posix.stat in Hfree. cbn [Posix.follow] in Hfree.
    unfold Posix.lstat in Hfree. rewrite Hkd, Hfile, Hreg in Hfree. done. }
  destruct (decide (file `prefix_of` kd)); [done |].
  assert (Hmove : Posix.move fs i file kd !! file = None).
  { unfold Posix.move. rewrite Hreg. cbn.
    rewrite lookup_insert_ne by done. apply lookup_delete_eq. }
  rewrite Hreg. cbn [is_dir_kind].
  destruct (fs !! kd) as [j |]; [destruct (is_dir_kind (kind j)); [done |] |];
    intros [= <-]; exact Hmove.
Qed.


(** C3 (the code departs from it).  The destination is checked with
    [exists], which follows symbolic links: a link whose target is missing
    does not count as existing, and the rename replaces it.  Here
    [d/latest] is such a link; renaming [d/report] to [latest] is not
    skipped, and the link is gone afterwards. *)
Theorem rename_replaces_dangling_link :
  let w := mkWorld demo_dangling [demo_report] [quiet "latest"] [] [] in
  Posix.lstat (fs w) demo_latest = Some (link_to ["d"; "gone"]%string) ∧
  path_exists (fs w) demo_latest = false ∧
  rename_files w =
    (Ret tt,
     mkWorld (<[demo_latest := regular 10]> (delete demo_report demo_dangling))
       [demo_report] []
       [MsgRenaming 1; MsgCurrent "report"; MsgPrompt PromptNewName; MsgRenamedTo "latest"]
       [SysRename demo_report demo_latest true]) ∧
  Posix.lstat (fs (rename_files w).2) demo_latest = Some (regular 10).
Proof. vm_compute. repeat split; reflexivity. Qed.

(** C4 (the code departs from it).  The operations menu strips the answer
    but does not lower its case: Q and QUIT are invalid choices after which
    the menu is shown again, while q ends it.  With the lines Q, 2, y the
    selected file is deleted.  The directory menu, like the file menu and
    the question of [delete_files], does lower the answer: there Q quits. *)
Theorem operations_menu_is_case_sensitive (fuel : nat) (tree : FS) (sel : list Path)
    (change : FS → FS) (rest : list typed) (out : list Msg) (calls : list syscall) :
  let shown := out ++ [MsgOperationsMenu; MsgPrompt PromptOperation] in
  operations_loop (S fuel) (mkWorld tree sel (Typed change "Q" :: rest) out calls) =
    operations_loop fuel
      (mkWorld (change tree) sel rest (shown ++ [MsgInvalidOperation]) calls) ∧
  operations_loop (S fuel) (mkWorld tree sel (Typed change "QUIT" :: rest) out calls) =
    operations_loop fuel
      (mkWorld (change tree) sel rest (shown ++ [MsgInvalidOperation]) calls) ∧
  operations_loop (S fuel) (mkWorld tree sel (Typed change "q" :: rest) out calls) =
    (Ret tt, mkWorld (change tree) sel rest shown calls) ∧
  syscalls (_run_operations_menu
              (mkWorld demo_tree [demo_a] [quiet "Q"; quiet "2"; quiet "y"] [] [])).2 =
    [SysUnlink demo_a true] ∧
  syscalls (_run_operations_menu
              (mkWorld demo_tree [demo_a] [quiet "q"; quiet "2"; quiet "y"] [] [])).2 = [] ∧
  (_display_directory_menu [] [] (mkWorld tree sel (Typed change "Q" :: rest) out calls)).1 =
    Ret "q"%string ∧
  (_handle_directory_choice "q" [] [] (mkWorld tree sel rest out calls)).1 = Ret None.
Proof.
  intros shown. subst shown. split_and!.
  - cbn [operations_loop]. unfold bind, print, input. cbn. by rewrite <- app_assoc.
  - cbn [operations_loop]. unfold bind, print, input. cbn. by rewrite <- app_assoc.
  - cbn [operations_loop]. unfold bind, print, input. cbn. by rewrite <- app_assoc.
  - vm_compute. reflexivity.
  - vm_compute. reflexivity.
  - reflexivity.
  - reflexivity.
Qed.

(** C10.  [rename_files] returns, or raises, with the list object of the
    selection as it found it: same length, same paths, same order,
    whatever was renamed, skipped or failed.  A regular file it has
    renamed stays in the list under its old path, which names nothing any
    more; in the session shown, after renaming [a] to [z], both the size
    report and the deletion then stop with [FileNotFoundError] at that
    path. *)
Theorem rename_keeps_selection (w : World) :
  selected_files (rename_files w).2 = selected_files w ∧
  (rename_files w).1 ≠ OutOfFuel ∧
  (∀ file i t rest fs1,
     stdin w = t :: rest →
     let new_name := Str.strip (text t) in
     let new_path := joinpath (parent file) new_name in
     file ∈ selected_files w →
     (".."%string ∉ file) → meanwhile t (fs w) !! file = Some i → kind i = S_IFREG →
     new_name ≠ EmptyString → _validate_filename new_name = true →
     path_exists (meanwhile t (fs w)) new_path = false →
     Posix.rename (meanwhile t (fs w)) file new_path = inr fs1 →
     syscalls (rename_one file w).2 = syscalls w ++ [SysRename file new_path true] ∧
     file ∈ selected_files (rename_one file w).2 ∧
     fs (rename_one file w).2 !! file = None) ∧
  _run_operations_menu
    (mkWorld demo_tree [demo_a; demo_b] [quiet "1"; quiet "z"; quiet ""; quiet "3"] [] []) =
    (Raise FileNotFoundError,
     mkWorld (<[["d"; "z"]%string := Inode S_IFREG 10 true true]> (delete demo_a demo_tree))
       [demo_a; demo_b] []
       [MsgOperationsMenu; MsgPrompt PromptOperation;
        MsgRenaming 2; MsgCurrent "a"; MsgPrompt PromptNewName; MsgRenamedTo "z";
        MsgCurrent "b"; MsgPrompt PromptNewName; MsgSkipped;
        MsgOperationsMenu; MsgPrompt PromptOperation; MsgFileInformation]
       [SysRename demo_a ["d"; "z"]%string true]) ∧
  _run_operations_menu
    (mkWorld demo_tree [demo_a; demo_b] [quiet "1"; quiet "z"; quiet ""; quiet "2"] [] []) =
    (Raise FileNotFoundError,
     mkWorld (<[["d"; "z"]%string := Inode S_IFREG 10 true true]> (delete demo_a demo_tree))
       [demo_a; demo_b] []
       [MsgOperationsMenu; MsgPrompt PromptOperation;
        MsgRenaming 2; MsgCurrent "a"; MsgPrompt PromptNewName; MsgRenamedTo "z";
        MsgCurrent "b"; MsgPrompt PromptNewName; MsgSkipped;
        MsgOperationsMenu; MsgPrompt PromptOperation; MsgDeleting 2]
       [SysRename demo_a ["d"; "z"]%string true]).
Proof.
  split_and!.
  - apply keeps_rename_files.
  - apply total_rename_files.
  - intros file i t rest fs1 Hin new_name new_path Hsel Hcan Hfile Hreg Hne Hok Hfree Hdone.
    rewrite (rename_one_renames file w t rest Hin fs1 Hne Hok Hfree Hdone).
    cbn [snd fs selected_files syscalls]. split_and!; [done | done |].
    by eapply rename_leaves_old_path.
  - vm_compute. reflexivity.
  - vm_compute. reflexivity.
Qed.

Lemma rename_keeps_selection_witness :
  let w := mkWorld demo_tree [demo_a; demo_b] [quiet "z"; quiet ""] [] [] in
  selected_files (rename_files w).2 = [demo_a; demo_b] ∧
  demo_a ∈ selected_files (rename_one demo_a w).2 ∧
  fs (rename_one demo_a w).2 !! demo_a = None.
Proof.
  intros w.
  destruct (rename_keeps_selection w) as (Hsame & _ & Hstep & _).
  split; [rewrite Hsame; reflexivity |].
  destruct (Hstep demo_a (Inode S_IFREG 10 true true) (quiet "z") [quiet EmptyString]
              (<[["d"; "z"]%string := Inode S_IFREG 10 true true]> (delete demo_a demo_tree)))
    as (_ & Hin & Hgone).
  - reflexivity.
  - apply list_elem_of_here.
  - refine (bool_decide_unpack _ _). vm_compute. exact I.
  - vm_compute. reflexivity.
  - reflexivity.
  - discriminate.
  - vm_compute. reflexivity.
  - vm_compute. reflexivity.
  - vm_compute. reflexivity.
  - split; assumption.
Defined.

(** * Second part: the listings, the menus and the operations

    ** The listings when the directory cannot be read *)

(** ** The listings where the directory cannot be listed *)

Lemma stat_missing (tree : FS) (path : Path) :
  (".."%string ∉ path) → tree !! path = None → Posix.stat tree path = inl FileNotFoundError.
Proof.
  intros Hcan Hnone. unfold Posix.stat. cbn [Posix.follow].
  by rewrite lstat_canonical, Hnone.
Qed.



Lemma get_files_returns (path : Path) (w : World) :
  ∃ files,
    get_files path w = (Ret files, w) ∧
    (∀ e, Posix.scandir (fs w) path = inl e → files = []) ∧
    (∀ p, p ∈ files → Posix.is_child_of path p ∧ is_Some (fs w !! p)).
Proof.
  unfold get_files, try_except, ask, glob_star. eexists. split; [reflexivity |]. split.
  - intros e ->. reflexivity.
  - intros p [_ Hp]%list_elem_of_filter. rewrite merge_sort_Permutation in Hp.
    destruct (Posix.scandir (fs w) path) as [e | l] eqn:Hscan;
      [by apply elem_of_nil in Hp |].
    unfold Posix.scandir in Hscan.
    destruct (Posix.stat (fs w) path) as [e | i]; [done |].
    destruct (is_dir_kind (kind i)); [| done].
    destruct (readable i); [| done]. injection Hscan as <-.
    by apply elem_of_children.
Qed.


(** ** The navigator *)

(** ** The directory navigator, choice by choice *)

Section Navigator.

Implicit Types (choice : string) (current_path : Path) (directories : list Path) (w : World).

Lemma keyword_cases choice (keywords : list string) :
one_of choice keywords = true ↔ choice ∈ keywords.
Proof. unfold one_of. apply bool_decide_eq_true. Qed.

(** Every answer of [_handle_directory_choice]: it returns, having printed
  at most one line and changed nothing else. *)
Lemma handle_directory_choice_cases choice current_path directories w :
∃ result out,
  _handle_directory_choice choice current_path directories w =
    (Ret result, mkWorld (fs w) (selected_files w) (stdin w) (stdout w ++ out) (syscalls w)) ∧
  (length out ≤ 1)%nat ∧
  (result = None ↔ choice ∈ ["q"; "quit"]%string) ∧
  (∀ p, result = Some p →
        p = current_path ∨ p = parent current_path ∨ p ∈ directories).
Proof.
unfold _handle_directory_choice.
destruct (one_of choice ["y"; "yes"; EmptyString]%string) eqn:Hyes.
{ exists (Some current_path), []. rewrite app_nil_r, world_eta.
  split_and!; [done | cbn; lia | | by intros p [= <-]; left].
  split; [done |]. intros Hq. apply keyword_cases in Hyes.
  exfalso. revert Hyes Hq. rewrite !elem_of_cons, !elem_of_nil.
  intros [-> | [-> | [-> | []]]] [? | [? | []]]; discriminate. }
destruct (one_of choice ["q"; "quit"]%string) eqn:Hquit.
{ exists None, []. rewrite app_nil_r, world_eta.
  split_and!; [done | cbn; lia | | done].
  split; [intros _; by apply keyword_cases | done]. }
assert (Hnq : choice ∉ ["q"; "quit"]%string).
{ intros Hq%keyword_cases. congruence. }
destruct (decide (choice = ".."%string)) as [-> | Hup].
{ cbv zeta. destruct (decide (parent current_path ≠ current_path)).
  - exists (Some (parent current_path)), []. rewrite app_nil_r, world_eta.
    split_and!; [done | cbn; lia | split; [done | by intros ?] |].
    intros p [= <-]. auto.
  - exists (Some current_path), [MsgAlreadyAtRoot].
    split_and!; [done | cbn; lia | split; [done | by intros ?] |].
    intros p [= <-]. auto. }
destruct (Str.isdigit choice).
- cbv zeta.
  destruct ((0 <=? Str.int choice - 1) &&
            (Str.int choice - 1 <? Z.of_nat (length directories))) eqn:Hrange.
  + apply andb_true_iff in Hrange as [H0%Z.leb_le Hlen%Z.ltb_lt].
    destruct (lookup_lt_is_Some_2 directories (Z.to_nat (Str.int choice - 1)))
      as [d Hd]; [lia |].
    exists (Some d), []. rewrite app_nil_r, world_eta, Hd.
    split_and!; [done | cbn; lia | split; [done | by intros ?] |].
    intros p [= <-]. right; right. by eapply list_elem_of_lookup_2.
  + exists (Some current_path), [MsgInvalidChoice (length directories)].
    split_and!; [done | cbn; lia | split; [done | by intros ?] |].
    intros p [= <-]. auto.
- exists (Some current_path), [MsgInvalidInput].
  split_and!; [done | cbn; lia | split; [done | by intros ?] |].
  intros p [= <-]. auto.
Qed.

End Navigator.


(** X4.  A number typed at the directory menu is 1-indexed: within
    [1..len(directories)] it selects that directory and prints nothing;
    0 and every number above the length are refused with the range
    message, the current path being kept. *)
Theorem descend_by_number (choice : string) (current_path : Path) (directories : list Path)
    (w : World) :
  Str.isdigit choice = true →
  (1 ≤ Str.int choice ≤ Z.of_nat (length directories) →
   ∃ d, directories !! Z.to_nat (Str.int choice - 1) = Some d ∧
        _handle_directory_choice choice current_path directories w = (Ret (Some d), w)) ∧
  (Str.int choice < 1 ∨ Z.of_nat (length directories) < Str.int choice →
   _handle_directory_choice choice current_path directories w =
     (Ret (Some current_path),
      mkWorld (fs w) (selected_files w) (stdin w)
        (stdout w ++ [MsgInvalidChoice (length directories)]) (syscalls w))).
Proof.
  intros Hd. unfold _handle_directory_choice.
  rewrite !(isdigit_not_keyword choice) by first [done | repeat constructor].
  rewrite decide_False by (intros ->; discriminate).
  rewrite Hd. cbv zeta. split.
  - intros Hrange.
    destruct (Z.leb_spec 0 (Str.int choice - 1)); [| lia].
    destruct (Z.ltb_spec (Str.int choice - 1) (Z.of_nat (length directories))); [| lia].
    destruct (lookup_lt_is_Some_2 directories (Z.to_nat (Str.int choice - 1)))
      as [d Hlook]; [lia |].
    exists d. by rewrite Hlook.
  - intros Hout.
    destruct (Z.leb_spec 0 (Str.int choice - 1));
      destruct (Z.ltb_spec (Str.int choice - 1) (Z.of_nat (length directories)));
      cbn; first [lia | reflexivity].
Qed.

Lemma descend_by_number_witness :
  _handle_directory_choice "2" [] [["d"]; ["e"]]%string demo_idle =
    (Ret (Some ["e"%string]), demo_idle) ∧
  _handle_directory_choice "0" [] [["d"]; ["e"]]%string demo_idle =
    (Ret (Some []), mkWorld ∅ [] [] [MsgInvalidChoice 2] []).
Proof.
  destruct (descend_by_number "2" [] [["d"]; ["e"]]%string demo_idle) as [Hin _];
    [reflexivity |].
  destruct (descend_by_number "0" [] [["d"]; ["e"]]%string demo_idle) as [_ Hout];
    [reflexivity |].
  split.
  - destruct Hin as (d & Hd & Hrun); [vm_compute; split; discriminate |].
    rewrite Hrun. vm_compute in Hd. by injection Hd as <-.
  - apply Hout. left. reflexivity.
Defined.

(** ** The loop of the navigator *)

(** ** The navigator as a whole *)

Lemma for_enumerate_prints {X} (f : nat → X → Msg) (l : list X) (i : nat) (w : World) :
  for_enumerate i l (λ i x, print (f i x)) w =
    (Ret tt, mkWorld (fs w) (selected_files w) (stdin w)
               (stdout w ++ imap (λ j x, f (i + j)%nat x) l) (syscalls w)).
Proof.
  revert i w. induction l as [| x l IH]; intros i w; cbn [for_enumerate].
  - cbn. by rewrite app_nil_r, world_eta.
  - unfold bind at 1, print at 1. rewrite IH.
    cbn [fs selected_files stdin stdout syscalls imap].
    rewrite <- app_assoc, Nat.add_0_r. cbn.
    do 4 f_equal. apply imap_ext. intros j y _. cbn. f_equal. lia.
Qed.

(** The directory menu: what it prints, and the answer it returns. *)
Lemma display_directory_menu_reads (current_path : Path) (directories : list Path) (w : World) :
  _display_directory_menu current_path directories w =
    match stdin w with
    | [] =>
        (Raise EOFError,
         mkWorld (fs w) (selected_files w) []
           (stdout w ++ directory_menu current_path directories) (syscalls w))
    | t :: rest =>
        (Ret (normalized t),
         mkWorld (meanwhile t (fs w)) (selected_files w) rest
           (stdout w ++ directory_menu current_path directories) (syscalls w))
    end.
Proof.
  unfold _display_directory_menu, directory_menu, directory_lines.
  unfold bind at 1, print at 1. unfold bind at 1, print at 1. unfold bind at 1.
  cbn [fs selected_files stdin stdout syscalls].
  destruct directories as [| d directories].
  - unfold print at 1. unfold bind, print, input, ret.
    cbn [fs selected_files stdin stdout syscalls].
    destruct (stdin w); cbn; rewrite <- !app_assoc; reflexivity.
  - rewrite for_enumerate_prints. unfold bind, print, input, ret.
    cbn [fs selected_files stdin stdout syscalls].
    destruct (stdin w); cbn; rewrite <- !app_assoc; reflexivity.
Qed.

Lemma keeps_stdin_get_directories path : keeps stdin (get_directories path).
Proof. unfold get_directories. frame. Qed.

(** Where the loop of the navigator returns. *)
Lemma choose_directory_loop_stops fuel current_path w result w' :
  choose_directory_loop fuel current_path w = (Ret result, w') →
  ∃ before t,
    stdin w = before ++ t :: stdin w' ∧
    Forall (λ u, normalized u ∉ ["y"; "yes"; EmptyString; "q"; "quit"]%string) before ∧
    match result with
    | None => normalized t ∈ ["q"; "quit"]%string
    | Some _ => normalized t ∈ ["y"; "yes"; EmptyString]%string
    end.
Proof.
  revert current_path w. induction fuel as [| fuel IH]; intros current_path w; [done |].
  cbn [choose_directory_loop]. unfold bind at 1.
  pose proof (keeps_stdin_get_directories current_path w) as Hin. cbn beta in Hin.
  destruct (get_directories current_path w) as [[directories | e |] w1]; [| done | done].
  cbn [snd] in Hin. rewrite <- Hin.
  unfold bind at 1. rewrite display_directory_menu_reads.
  destruct (stdin w1) as [| t rest]; [done |].
  unfold bind at 1.
  destruct (handle_directory_choice_cases (normalized t) current_path directories
    (mkWorld (meanwhile t (fs w1)) (selected_files w1) rest
       (stdout w1 ++ directory_menu current_path directories) (syscalls w1)))
    as (answer & out & -> & _ & Hquit & _).
  cbn [fs selected_files stdin stdout syscalls].
  destruct answer as [p |].
  - destruct (one_of (normalized t) ["y"; "yes"; EmptyString]%string) eqn:Hyes.
    + intros [= <- <-]. exists [], t. cbn. split_and!; [done | constructor |].
      by apply keyword_cases.
    + intros Hrun. apply IH in Hrun as (before & u & Hsplit & Hbefore & Hlast).
      cbn [stdin] in Hsplit. exists (t :: before), u. split_and!; [| | done].
      * by rewrite Hsplit.
      * constructor; [| done]. intros Hin'.
        assert (Hno : normalized t ∉ ["y"; "yes"; EmptyString]%string).
        { intros ?%keyword_cases. congruence. }
        assert (Hnq : normalized t ∉ ["q"; "quit"]%string).
        { intros Hq. destruct Hquit as [_ Hback]. specialize (Hback Hq). discriminate. }
        change ["y"; "yes"; EmptyString; "q"; "quit"]%string
          with (["y"; "yes"; EmptyString]%string ++ ["q"; "quit"]%string)%list in Hin'.
        apply elem_of_app in Hin' as [? | ?]; done.
  - intros [= <- <-]. exists [], t. cbn. split_and!; [done | constructor |].
    by apply Hquit.
Qed.



(** ** The answers of the file selector *)

(** ** The file selector, choice by choice *)

Section FileChoice.

Implicit Types (choice : string) (files : list Path) (w : World).

Lemma not_keyword choice (mine others : list string) :
choice ∈ mine → (∀ k, k ∈ mine → k ∉ others) → one_of choice others = false.
Proof.
intros Hin Hdisjoint. apply bool_decide_eq_false_2. by apply Hdisjoint.
Qed.

Lemma disjoint_keywords (mine others : list string) :
forallb (λ k, negb (bool_decide (k ∈ others))) mine = true →
∀ k, k ∈ mine → k ∉ others.
Proof.
rewrite forallb_forall. intros H k Hk%list_elem_of_In.
specialize (H k Hk). apply negb_true_iff, bool_decide_eq_false in H. done.
Qed.

Lemma handle_file_choice_done choice files w :
choice ∈ ["d"; "done"; EmptyString]%string →
_handle_file_choice choice files w = (Ret false, w).
Proof.
intros Hin%keyword_cases. unfold _handle_file_choice. by rewrite Hin.
Qed.

Lemma handle_file_choice_quit choice files w :
choice ∈ ["q"; "quit"]%string →
_handle_file_choice choice files w =
  (Ret false, mkWorld (fs w) [] (stdin w) (stdout w) (syscalls w)).
Proof.
intros Hin. unfold _handle_file_choice.
rewrite (not_keyword choice ["q"; "quit"]%string) by
  first [done | by apply disjoint_keywords].
apply keyword_cases in Hin. by rewrite Hin.
Qed.

Lemma handle_file_choice_clear choice files w :
choice ∈ ["c"; "clear"]%string →
_handle_file_choice choice files w =
  (Ret true, mkWorld (fs w) [] (stdin w) (stdout w ++ [MsgSelectionCleared]) (syscalls w)).
Proof.
intros Hin. unfold _handle_file_choice.
rewrite !(not_keyword choice ["c"; "clear"]%string) by
  first [done | by apply disjoint_keywords].
apply keyword_cases in Hin. by rewrite Hin.
Qed.

Lemma handle_file_choice_out_of_range choice files w :
Str.isdigit choice = true →
Str.int choice < 1 ∨ Z.of_nat (length files) < Str.int choice →
_handle_file_choice choice files w =
  (Ret true, mkWorld (fs w) (selected_files w) (stdin w)
               (stdout w ++ [MsgInvalidChoice (length files)]) (syscalls w)).
Proof.
intros Hd Hout. unfold _handle_file_choice.
rewrite !(isdigit_not_keyword choice) by first [done | repeat constructor].
rewrite Hd. cbv zeta.
destruct (Z.leb_spec 0 (Str.int choice - 1));
  destruct (Z.ltb_spec (Str.int choice - 1) (Z.of_nat (length files)));
  cbn; first [lia | reflexivity].
Qed.

Lemma handle_file_choice_other choice files w :
Str.isdigit choice = false →
choice ∉ ["d"; "done"; EmptyString; "q"; "quit"; "c"; "clear"]%string →
_handle_file_choice choice files w =
  (Ret true, mkWorld (fs w) (selected_files w) (stdin w)
               (stdout w ++ [MsgInvalidInput]) (syscalls w)).
Proof.
intros Hd Hno. unfold _handle_file_choice.
assert (H1 : one_of choice ["d"; "done"; EmptyString]%string = false).
{ apply bool_decide_eq_false_2. intros Hin. apply Hno. revert Hin.
  rewrite !elem_of_cons, !elem_of_nil. tauto. }
assert (H2 : one_of choice ["q"; "quit"]%string = false).
{ apply bool_decide_eq_false_2. intros Hin. apply Hno. revert Hin.
  rewrite !elem_of_cons, !elem_of_nil. tauto. }
assert (H3 : one_of choice ["c"; "clear"]%string = false).
{ apply bool_decide_eq_false_2. intros Hin. apply Hno. revert Hin.
  rewrite !elem_of_cons, !elem_of_nil. tauto. }
by rewrite H1, H2, H3, Hd.
Qed.

(** Whether the loop of the selector goes on after a choice. *)
Lemma handle_file_choice_continues choice files w :
∃ continue w',
  _handle_file_choice choice files w = (Ret continue, w') ∧
  stdin w' = stdin w ∧ syscalls w' = syscalls w ∧ fs w' = fs w ∧
  (continue = false ↔ choice ∈ ["d"; "done"; EmptyString; "q"; "quit"]%string) ∧
  (choice ∈ ["q"; "quit"]%string → selected_files w' = []).
Proof.
destruct (decide (choice ∈ ["d"; "done"; EmptyString]%string)) as [Hdone | Hnd].
{ eexists _, _. rewrite handle_file_choice_done by done.
  split_and!; try done.
  - split; [intros _ | done].
    revert Hdone. rewrite !elem_of_cons. tauto.
  - intros Hq. exfalso. revert Hdone Hq. rewrite !elem_of_cons, !elem_of_nil.
    intros [-> | [-> | [-> | []]]] [? | [? | []]]; discriminate. }
destruct (decide (choice ∈ ["q"; "quit"]%string)) as [Hquit | Hnq].
{ eexists _, _. rewrite handle_file_choice_quit by done.
  split_and!; try done.
  split; [intros _ | done]. revert Hquit. rewrite !elem_of_cons. tauto. }
assert (Hgo : choice ∉ ["d"; "done"; EmptyString; "q"; "quit"]%string).
{ revert Hnd Hnq. rewrite !elem_of_cons, !elem_of_nil. tauto. }
unfold _handle_file_choice, one_of.
rewrite (bool_decide_eq_false_2 (choice ∈ ["d"; "done"; EmptyString]%string)) by done.
rewrite (bool_decide_eq_false_2 (choice ∈ ["q"; "quit"]%string)) by done.
destruct (bool_decide (choice ∈ ["c"; "clear"]%string)).
{ eexists _, _. split; [reflexivity |]. cbn. split_and!; done. }
destruct (Str.isdigit choice).
- cbv zeta.
  destruct ((0 <=? Str.int choice - 1) && (Str.int choice - 1 <? Z.of_nat (length files))).
  + destruct (files !! Z.to_nat (Str.int choice - 1)) as [f |].
    * unfold bind, selected, set_selected, print, ret. cbn.
      destruct (bool_decide (f ∈ selected_files w)); cbn;
        eexists _, _; (split; [reflexivity |]); cbn; split_and!; done.
    * eexists _, _. split; [reflexivity |]. cbn. split_and!; done.
  + eexists _, _. split; [reflexivity |]. cbn. split_and!; done.
- eexists _, _. split; [reflexivity |]. cbn. split_and!; done.
Qed.

End FileChoice.



(** ** The file menu and the selector *)

(** ** The file menu and the selector as a whole *)

Section FileMenu.

Implicit Types (directory : Path) (files : list Path) (w : World).

Lemma file_row_shown i file w :
file_row i file w =
  match shown_size (fs w) file with
  | Ret s => (Ret tt, mkWorld (fs w) (selected_files w) (stdin w)
                        (stdout w ++ [MsgFileEntry (bool_decide (file ∈ selected_files w))
                                        i (name file) s])
                        (syscalls w))
  | Raise e => (Raise e, w)
  | OutOfFuel => (OutOfFuel, w)
  end.
Proof.
unfold file_row, shown_size, bind, selected, path_stat, query, lift, print.
cbn [fst snd fs selected_files]. destruct (Posix.stat (fs w) file) as [e | st]; [done |].
by destruct (format_file_size (st_size st)).
Qed.

Lemma file_rows i files w :
Forall (displayable (fs w)) files →
for_enumerate i files file_row w =
  (Ret tt, mkWorld (fs w) (selected_files w) (stdin w)
             (stdout w ++ file_lines (fs w) (selected_files w) i files) (syscalls w)).
Proof.
revert i w. induction files as [| f files IH]; intros i w Hall; cbn [for_enumerate file_lines].
- cbn. by rewrite app_nil_r, world_eta.
- apply Forall_cons in Hall as [[s Hs] Hall].
  unfold bind at 1. rewrite file_row_shown, Hs.
  rewrite IH by done. cbn [fs selected_files stdin stdout syscalls].
  by rewrite <- app_assoc.
Qed.

Lemma file_rows_raise i files w :
¬ Forall (displayable (fs w)) files →
∃ e w', for_enumerate i files file_row w = (Raise e, w') ∧
        fs w' = fs w ∧ selected_files w' = selected_files w ∧
        stdin w' = stdin w ∧ syscalls w' = syscalls w.
Proof.
revert i w. induction files as [| f files IH]; intros i w Hnot; cbn [for_enumerate].
- destruct Hnot. constructor.
- unfold bind at 1. rewrite file_row_shown.
  destruct (shown_size_cases (fs w) f) as [[s Hs] | [e He]].
  + rewrite Hs.
    destruct (IH (S i) (mkWorld (fs w) (selected_files w) (stdin w)
      (stdout w ++ [MsgFileEntry (bool_decide (f ∈ selected_files w)) i (name f) s])
      (syscalls w))) as (e & w' & -> & ?); [| by exists e, w'].
    cbn. intros Hall. apply Hnot. constructor; [by exists s | done].
  + rewrite He. by exists e, w.
Qed.

Lemma display_file_menu_unfold directory files w :
_display_file_menu directory files w =
  (print MsgBanner ;;;
   print (MsgFilesIn directory) ;;;
   for_enumerate 1 files file_row ;;;
   selected_files <- selected ;;
   (match selected_files with
    | [] => ret tt
    | _ => print (MsgSelectedCount (length selected_files))
    end) ;;;
   print MsgRule ;;;
   answer <- input (PromptFiles (length files)) ;;
   ret (Str.lower (Str.strip answer))) w.
Proof. reflexivity. Qed.

(** The file menu when every listed file can be shown. *)
Lemma display_file_menu_shows directory files w :
Forall (displayable (fs w)) files →
_display_file_menu directory files w =
  match stdin w with
  | [] =>
      (Raise EOFError,
       mkWorld (fs w) (selected_files w) []
         (stdout w ++ file_menu (fs w) (selected_files w) directory files) (syscalls w))
  | t :: rest =>
      (Ret (normalized t),
       mkWorld (meanwhile t (fs w)) (selected_files w) rest
         (stdout w ++ file_menu (fs w) (selected_files w) directory files) (syscalls w))
  end.
Proof.
intros Hall. rewrite display_file_menu_unfold. unfold file_menu.
unfold bind at 1, print at 1. unfold bind at 1, print at 1. unfold bind at 1.
rewrite file_rows by done. cbn [fs selected_files stdin stdout syscalls].
unfold bind at 1, selected at 1. cbn [fs selected_files stdin stdout syscalls].
destruct (selected_files w) as [| f sel] eqn:Hsel.
- unfold bind, ret, print, input. cbn [fs selected_files stdin stdout syscalls].
  destruct (stdin w); cbn; rewrite <- !app_assoc; cbn;
    rewrite <- ?app_assoc; reflexivity.
- unfold bind, ret, print, input. cbn [fs selected_files stdin stdout syscalls].
  destruct (stdin w); cbn; rewrite <- !app_assoc; cbn;
    rewrite <- ?app_assoc; reflexivity.
Qed.

(** The file menu when a listed file cannot be shown any more. *)
Lemma display_file_menu_raises directory files w :
¬ Forall (displayable (fs w)) files →
∃ e w', _display_file_menu directory files w = (Raise e, w') ∧
        fs w' = fs w ∧ selected_files w' = selected_files w ∧
        stdin w' = stdin w ∧ syscalls w' = syscalls w.
Proof.
intros Hnot. rewrite display_file_menu_unfold.
unfold bind at 1, print at 1. unfold bind at 1, print at 1. unfold bind at 1.
destruct (file_rows_raise 1 files
  (mkWorld (fs w) (selected_files w) (stdin w)
     ((stdout w ++ [MsgBanner]) ++ [MsgFilesIn directory]) (syscalls w)))
  as (e & w' & Hrun & ?); [done |].
cbn [fs selected_files stdin stdout syscalls] in *. rewrite Hrun. by exists e, w'.
Qed.

(** What a returning file menu has done. *)
Lemma display_file_menu_returns directory files w choice w' :
_display_file_menu directory files w = (Ret choice, w') →
∃ t, stdin w = t :: stdin w' ∧ choice = normalized t ∧
     selected_files w' = selected_files w ∧ syscalls w' = syscalls w.
Proof.
destruct (displayable_all_cases (fs w) files) as [Hall | Hnot].
- rewrite display_file_menu_shows by done.
  destruct (stdin w) as [| t rest]; [done |].
  intros [= <- <-]. by exists t.
- destruct (display_file_menu_raises directory files w Hnot) as (e & w1 & -> & _). done.
Qed.

(** Where the loop of the selector returns. *)
Lemma choose_files_loop_stops fuel directory files w w' :
choose_files_loop fuel directory files w = (Ret tt, w') →
syscalls w' = syscalls w ∧
∃ before t,
  stdin w = before ++ t :: stdin w' ∧
  Forall (λ u, normalized u ∉ ["d"; "done"; EmptyString; "q"; "quit"]%string) before ∧
  normalized t ∈ ["d"; "done"; EmptyString; "q"; "quit"]%string ∧
  (normalized t ∈ ["q"; "quit"]%string → selected_files w' = []).
Proof.
revert w. induction fuel as [| fuel IH]; intros w; [done |].
cbn [choose_files_loop]. unfold bind at 1.
destruct (_display_file_menu directory files w) as [[choice | e |] w1] eqn:Hmenu;
  [| done | done].
apply display_file_menu_returns in Hmenu as (t & Hin & -> & Hsel & Hcalls).
unfold bind.
destruct (handle_file_choice_continues (normalized t) files w1)
  as (continue & w2 & -> & Hin2 & Hcalls2 & _ & Hstop & Hquit).
destruct continue.
- intros Hrun. apply IH in Hrun as (Hcalls3 & before & u & Hsplit & Hbefore & Hlast).
  split; [congruence |].
  exists (t :: before), u. split_and!; [| | tauto | tauto].
  + rewrite Hin, <- Hin2, Hsplit. done.
  + constructor; [| done]. intros Hterm. apply Hstop in Hterm. discriminate.
- intros [= <-]. split; [congruence |].
  exists [], t. split_and!; [by rewrite Hin, <- Hin2 | constructor | by apply Hstop | done].
Qed.

End FileMenu.



Lemma get_files_value (directory : Path) (w : World) :
  get_files directory w =
    (Ret (filter (λ f, path_is_file (fs w) f && negb (path_is_symlink (fs w) f))
            (merge_sort path_le (glob_star (fs w) directory))), w).
Proof. reflexivity. Qed.

(** X8.  In a directory without regular files [choose_files] does not
    enter its loop: it says so, waits for one line, whatever it is, and
    returns the empty list; the list object of the selection is not
    touched. *)
Theorem choose_files_nothing_to_select (directory : Path) (w : World) :
  get_files directory w = (Ret [], w) →
  choose_files directory w =
    match stdin w with
    | [] =>
        (Raise EOFError,
         mkWorld (fs w) (selected_files w) []
           (stdout w ++ [MsgNoFilesFound directory; MsgPrompt PromptPressEnter]) (syscalls w))
    | t :: rest =>
        (Ret [],
         mkWorld (meanwhile t (fs w)) (selected_files w) rest
           (stdout w ++ [MsgNoFilesFound directory; MsgPrompt PromptPressEnter]) (syscalls w))
    end.
Proof.
  intros Hnone. unfold choose_files. unfold bind at 1. rewrite Hnone.
  unfold bind, print, input, ret. cbn [fs selected_files stdin stdout syscalls].
  destruct (stdin w); cbn; by rewrite <- app_assoc.
Qed.

Lemma choose_files_nothing_to_select_witness :
  choose_files [] (mkWorld demo_tree [demo_a] [quiet "1"; quiet "d"] [] []) =
    (Ret [], mkWorld demo_tree [demo_a] [quiet "d"]
               [MsgNoFilesFound []; MsgPrompt PromptPressEnter] []).
Proof.
  rewrite (choose_files_nothing_to_select [] (mkWorld demo_tree [demo_a] [quiet "1"; quiet "d"] [] []));
    [reflexivity |].
  vm_compute. reflexivity.
Defined.



(** ** What the bulk operations ask of the system *)

Section Requests.

Implicit Types (w : World) (P : syscall → Prop).

Lemma calls_since_refl P w : calls_since P w w.
Proof. exists []. by rewrite app_nil_r. Qed.

Lemma calls_since_trans P w1 w2 w3 :
  calls_since P w1 w2 → calls_since P w2 w3 → calls_since P w1 w3.
Proof.
  intros (l1 & H1 & HP1) (l2 & H2 & HP2). exists (l1 ++ l2).
  rewrite H2, H1, <- app_assoc. split; [done | by apply Forall_app].
Qed.

Lemma calls_since_same P w w' : syscalls w' = syscalls w → calls_since P w w'.
Proof. intros H. exists []. by rewrite app_nil_r. Qed.

Lemma lines_left_refl w : lines_left w w.
Proof. unfold lines_left. reflexivity. Qed.

Lemma lines_left_trans w1 w2 w3 : lines_left w1 w2 → lines_left w2 w3 → lines_left w1 w3.
Proof. unfold lines_left. intros H1 H2. by etrans. Qed.

Lemma lines_left_same w w' : stdin w' = stdin w → lines_left w w'.
Proof. unfold lines_left. by intros ->. Qed.

Lemma lines_left_Forall (Q : typed → Prop) w w' :
  lines_left w w' → Forall Q (stdin w) → Forall Q (stdin w').
Proof. unfold lines_left. intros [k ->] H. by apply Forall_app in H as [_ H]. Qed.

Lemma lines_left_input p : within lines_left (input p).
Proof.
  intros w. unfold input, lines_left. destruct (stdin w) as [| t rest] eqn:H; cbn.
  - done.
  - by apply suffix_cons_r.
Qed.

(** One round of [rename_files]: no request, or one for this file. *)
Lemma rename_one_calls file w :
  selected_files (rename_one file w).2 = selected_files w ∧
  ∃ renames,
    syscalls (rename_one file w).2 = syscalls w ++ (rename_call <$> renames) ∧
    (renames = [] ∨
     ∃ new_name ok, renames = [(file, new_name, ok)] ∧
       new_name ≠ EmptyString ∧ _validate_filename new_name = true).
Proof.
  split; [apply keeps_rename_one |].
  destruct (stdin w) as [| t rest] eqn:Hin.
  { exists []. unfold rename_one, bind, print, input. cbn. rewrite Hin. cbn.
    split; [by rewrite app_nil_r | by left]. }
  rewrite (rename_one_asks file w t rest Hin).
  destruct (decide (Str.strip (text t) = EmptyString)) as [He | He].
  { exists []. cbn. split; [by rewrite app_nil_r | by left]. }
  destruct (_validate_filename (Str.strip (text t))) eqn:Hv; cbn [negb].
  2:{ exists []. cbn. split; [by rewrite app_nil_r | by left]. }
  unfold bind at 1, ask. cbn [fs].
  destruct (path_exists _ _).
  { exists []. cbn. split; [by rewrite app_nil_r | by left]. }
  unfold try_except, bind, path_rename, print. cbn [fs selected_files stdin stdout syscalls].
  destruct (Posix.rename _ _ _) as [e | fs1] eqn:Hr.
  - exists [(file, Str.strip (text t), false)].
    rewrite (rename_error_class _ _ _ _ Hr). cbn. split; [done |]. right. eauto.
  - exists [(file, Str.strip (text t), true)]. cbn. split; [done |]. right. eauto.
Qed.

(** The loop from index [i]: requests for files from there on, in the
    order of the list, at most one for each. *)
Lemma rename_loop_calls fuel i w :
  ∃ renames,
    syscalls (for_from fuel i (λ file _, rename_one file) tt w).2 =
      syscalls w ++ (rename_call <$> renames) ∧
    (λ r, r.1.1) <$> renames `sublist_of` drop i (selected_files w) ∧
    Forall (λ r, r.1.2 ≠ EmptyString ∧ _validate_filename r.1.2 = true) renames.
Proof.
  revert i w. induction fuel as [| fuel IH]; intros i w.
  { exists []. cbn. split_and!; [by rewrite app_nil_r | apply sublist_nil_l | constructor]. }
  cbn [for_from]. destruct (selected_files w !! i) as [file |] eqn:Hi.
  2:{ exists []. cbn. split_and!; [by rewrite app_nil_r | apply sublist_nil_l | constructor]. }
  rewrite (lookup_drop_cons _ _ _ Hi).
  destruct (rename_one_calls file w) as (Hsel & r1 & Hcalls & Hr1).
  unfold bind. destruct (rename_one file w) as [[[] | e |] w1]; cbn [snd] in *.
  - destruct (IH (S i) w1) as (r2 & Hcalls2 & Hsub & Hall).
    rewrite Hsel in Hsub. exists (r1 ++ r2).
    rewrite Hcalls2, Hcalls, fmap_app, <- app_assoc. split; [done |].
    destruct Hr1 as [-> | (n & ok & -> & Hn & Hv)]; cbn.
    + split; [by apply sublist_cons | done].
    + split; [by apply sublist_skip | by constructor].
  - exists r1. split; [done |].
    destruct Hr1 as [-> | (n & ok & -> & Hn & Hv)]; cbn.
    + split; [apply sublist_nil_l | constructor].
    + split; [apply sublist_skip, sublist_nil_l | by repeat constructor].
  - exists r1. split; [done |].
    destruct Hr1 as [-> | (n & ok & -> & Hn & Hv)]; cbn.
    + split; [apply sublist_nil_l | constructor].
    + split; [apply sublist_skip, sublist_nil_l | by repeat constructor].
Qed.

Lemma rename_files_calls w :
  ∃ renames,
    syscalls (rename_files w).2 = syscalls w ++ (rename_call <$> renames) ∧
    (λ r, r.1.1) <$> renames `sublist_of` selected_files w ∧
    Forall (λ r, r.1.2 ≠ EmptyString ∧ _validate_filename r.1.2 = true) renames.
Proof.
  unfold rename_files. unfold bind at 1, selected at 1.
  destruct (selected_files w) as [| f l] eqn:Hsel.
  { exists []. cbn. split_and!; [by rewrite app_nil_r | done | constructor]. }
  rewrite <- Hsel. unfold bind, print, for_selected.
  cbn [fs selected_files stdin stdout syscalls].
  match goal with |- context [for_from ?n 0 ?b tt ?w1] =>
    destruct (rename_loop_calls n 0 w1) as (renames & Hc & Hsub & Hall)
  end.
  cbn [fs selected_files stdin stdout syscalls] in *. rewrite drop_0 in Hsub.
  by exists renames.
Qed.

Lemma rename_call_is_rename renames : Forall is_rename (rename_call <$> renames).
Proof. apply Forall_fmap, Forall_forall. by intros [[file n] ok] _. Qed.

Lemma rename_files_only_renames : within (calls_since is_rename) rename_files.
Proof.
  intros w. destruct (rename_files_calls w) as (renames & Hc & _).
  exists (rename_call <$> renames). split; [done | apply rename_call_is_rename].
Qed.

End Requests.

(** X10.  Whatever is typed, what [rename_files] asks of the system are
    renames only, at most one for each selected file and in the order of
    the selection: each is for a selected path, towards a name joined to
    the directory of that path, a name that is not empty and has passed
    [_validate_filename].  It never unlinks. *)
Theorem rename_files_requests (w : World) :
  ∃ renames : list (Path * string * bool),
    syscalls (rename_files w).2 = syscalls w ++ (rename_call <$> renames) ∧
    (λ r, r.1.1) <$> renames `sublist_of` selected_files w ∧
    Forall (λ r, r.1.2 ≠ EmptyString ∧ _validate_filename r.1.2 = true) renames.
Proof. apply rename_files_calls. Qed.

(** ** What deleting asks of the system *)

Section DeleteRequests.

Implicit Types (w : World).

Lemma keeps_selection_delete_files : keeps selected_files delete_files.
Proof.
  unfold delete_files. frame.
  intros w. apply keeps_selection_delete_loop.
Qed.

(** Once every selected file has been shown, [delete_files] is at its
    question. *)
Lemma delete_files_asks w :
  selected_files w ≠ [] →
  Forall (displayable (fs w)) (selected_files w) →
  delete_files w =
    (answer <- input (PromptDeleteAll (length (selected_files w))) ;;
     let confirm := Str.lower (Str.strip answer) in
     if negb (one_of confirm ["y"; "yes"]%string) then print MsgDeletionCancelled
     else
       deleted_count <- (λ w, delete_loop (S (length (selected_files w))) 0 0 w) ;;
       files <- selected ;;
       print (MsgDeletedSummary deleted_count (length files)))
    (mkWorld (fs w) (selected_files w) (stdin w)
       (stdout w ++ [MsgDeleting (length (selected_files w))] ++
        delete_listing (fs w) (selected_files w))
       (syscalls w)).
Proof.
  intros Hne Hshown. unfold delete_files. unfold bind at 1, selected at 1.
  destruct (selected_files w) as [| f l] eqn:Hfiles; [done |]. rewrite <- Hfiles in *.
  unfold bind at 1, print at 1. unfold bind at 1, for_selected.
  rewrite listing_loop; cbn [fs selected_files stdin stdout syscalls];
    [| lia | by rewrite drop_0].
  rewrite drop_0. unfold bind at 1, selected at 1.
  cbn [fs selected_files stdin stdout syscalls]. by rewrite <- app_assoc.
Qed.

Lemma unlink_all_requests (tree : FS) l done fs' failure :
  unlink_all tree l = (done, fs', failure) →
  unlink_requests done failure `prefix_of` l.
Proof.
  intros H. apply unlink_all_split in H. unfold unlink_requests.
  destruct failure as [[p e] |].
  - destruct H as [[later ->] _]. exists later. by rewrite <- app_assoc.
  - subst l. by rewrite app_nil_r.
Qed.

Lemma delete_files_calls w :
  ∃ done failure,
    syscalls (delete_files w).2 = syscalls w ++ delete_calls done failure ∧
    unlink_requests done failure `prefix_of` selected_files w.
Proof.
  assert (Hnone : syscalls (delete_files w).2 = syscalls w →
    ∃ done failure,
      syscalls (delete_files w).2 = syscalls w ++ delete_calls done failure ∧
      unlink_requests done failure `prefix_of` selected_files w).
  { intros H. exists [], None. cbn. rewrite app_nil_r. split; [done | apply prefix_nil]. }
  destruct (decide (selected_files w = [])) as [Hnil | Hne].
  { apply Hnone. unfold delete_files, bind, selected. by rewrite Hnil. }
  destruct (displayable_all_cases (fs w) (selected_files w)) as [Hall | Hnot].
  2:{ apply Hnone.
      destruct (delete_files_listing_fails w Hne Hnot) as (e & w' & -> & Hc & _). done. }
  rewrite delete_files_asks by done.
  unfold bind at 1, input at 1. cbn [fs selected_files stdin stdout syscalls].
  destruct (stdin w) as [| t rest]; [by exists [], None; cbn; rewrite app_nil_r; split; [| apply prefix_nil] |].
  cbn zeta.
  destruct (one_of (Str.lower (Str.strip (text t))) ["y"; "yes"]%string); cbn [negb].
  2:{ exists [], None. cbn. rewrite app_nil_r. split; [done | apply prefix_nil]. }
  destruct (unlink_all (meanwhile t (fs w)) (selected_files w))
    as [[done fs'] failure] eqn:Hall'.
  exists done, failure. split; [| by eapply unlink_all_requests].
  unfold bind at 1.
  erewrite deleting_loop; cbn [fs selected_files stdin stdout syscalls];
    [| lia | rewrite drop_0; exact Hall'].
  reflexivity.
Qed.

Lemma delete_calls_unlink done failure c :
  c ∈ delete_calls done failure → ∃ p ok, c = SysUnlink p ok.
Proof.
  unfold delete_calls. rewrite elem_of_app, list_elem_of_fmap.
  intros [(p & -> & _) | H]; [eauto |].
  destruct failure as [[p e] |]; [| by apply elem_of_nil in H].
  apply list_elem_of_singleton in H as ->. eauto.
Qed.

End DeleteRequests.

(** X11.  In every world, confirmed or not, what [delete_files] asks of
    the system are unlinks of selected paths, from the first one on, in the
    order of the selection and without a gap; all succeed except possibly
    the last, after which nothing more is asked.  The list object of the
    selection is left as it was: deleted files stay in it. *)
Theorem delete_files_requests (w : World) :
  selected_files (delete_files w).2 = selected_files w ∧
  ∃ done failure,
    syscalls (delete_files w).2 = syscalls w ++ delete_calls done failure ∧
    unlink_requests done failure `prefix_of` selected_files w.
Proof. split; [apply keeps_selection_delete_files | apply delete_files_calls]. Qed.

(** ** The operations menu *)

Section OperationsMenu.

Implicit Types (w : World).

Lemma lines_left_rename_files : within lines_left rename_files.
Proof.
  unfold rename_files, rename_one.
  repeat first
    [ match goal with |- ∀ _, _ => intro end
    | progress cbv zeta
    | apply lines_left_input
    | apply within_bind; [apply lines_left_trans | |]
    | apply within_try_except; [apply lines_left_trans | |]
    | apply within_for_selected; [apply lines_left_refl | apply lines_left_trans |]
    | match goal with |- within _ (match ?x with _ => _ end) => destruct x end
    | match goal with |- within _ (if ?x then _ else _) => destruct x end
    | solve [intros w; apply lines_left_same; revert w;
             change (keeps stdin ?m) with (keeps stdin m); frame_primitive] ].
Qed.

Lemma keeps_syscalls_show_file_info : keeps syscalls _show_file_info.
Proof. unfold _show_file_info. frame. Qed.

Lemma keeps_stdin_show_file_info : keeps stdin _show_file_info.
Proof. unfold _show_file_info. frame. Qed.

Lemma keeps_fs_show_file_info : keeps fs _show_file_info.
Proof. unfold _show_file_info. frame. Qed.

Lemma keeps_selection_show_file_info : keeps selected_files _show_file_info.
Proof. unfold _show_file_info. frame. Qed.

Lemma delete_files_unconfirmed w :
  Forall (λ t, one_of (normalized t) ["y"; "yes"]%string = false) (stdin w) →
  syscalls (delete_files w).2 = syscalls w.
Proof.
  intros Hlines.
  destruct (decide (selected_files w = [])) as [Hnil | Hne].
  { unfold delete_files, bind, selected. by rewrite Hnil. }
  destruct (displayable_all_cases (fs w) (selected_files w)) as [Hall | Hnot].
  2:{ destruct (delete_files_listing_fails w Hne Hnot) as (e & w' & -> & Hc & _). done. }
  rewrite delete_files_asks by done.
  unfold bind at 1, input at 1. cbn [fs selected_files stdin stdout syscalls].
  destruct (stdin w) as [| t rest]; [done |].
  apply Forall_cons in Hlines as [Ht _]. unfold normalized in Ht.
  cbn zeta. by rewrite Ht.
Qed.

(** The loop of the menu under a condition on the lines to come that
    rules out a deletion. *)
Lemma operations_loop_renames (Q : typed → Prop) fuel w :
  (∀ t w1, Q t → Forall Q (stdin w1) → Str.strip (text t) = "2"%string →
           syscalls (delete_files w1).2 = syscalls w1) →
  Forall Q (stdin w) →
  calls_since is_rename w (operations_loop fuel w).2.
Proof.
  intros Hdelete. revert w. induction fuel as [| fuel IH]; intros w Hlines;
    [apply calls_since_refl |].
  cbn [operations_loop]. unfold bind at 1, print at 1. unfold bind at 1, input at 1.
  cbn [fs selected_files stdin stdout syscalls].
  destruct (stdin w) as [| t rest] eqn:Hin; [by apply calls_since_same |].
  apply Forall_cons in Hlines as [Ht Hrest].
  set (w1 := mkWorld _ _ rest _ _).
  assert (Hw1 : calls_since is_rename w w1) by (by apply calls_since_same).
  assert (Hl1 : Forall Q (stdin w1)) by done.
  clearbody w1. clear Hin Hrest.
  eapply calls_since_trans; [exact Hw1 |].
  destruct (decide (Str.strip (text t) = "1"%string)).
  { unfold bind. pose proof (rename_files_only_renames w1) as Hc.
    pose proof (lines_left_rename_files w1) as Hl.
    destruct (rename_files w1) as [[[] | err |] w2]; cbn [snd] in *; [| done | done].
    eapply calls_since_trans; [exact Hc |]. apply IH.
    by eapply lines_left_Forall. }
  destruct (decide (Str.strip (text t) = "2"%string));
    [apply calls_since_same; by eapply Hdelete |].
  destruct (decide (Str.strip (text t) = "3"%string)).
  { unfold bind. pose proof (keeps_syscalls_show_file_info w1) as Hc.
    pose proof (keeps_stdin_show_file_info w1) as Hl. cbn beta in Hc, Hl.
    destruct (_show_file_info w1) as [[[] | err |] w2]; cbn [snd] in *;
      [| by apply calls_since_same | by apply calls_since_same].
    eapply calls_since_trans; [by apply calls_since_same |]. apply IH.
    by rewrite Hl. }
  destruct (one_of (Str.strip (text t)) _); [apply calls_since_refl |].
  unfold bind, print. cbn [fs selected_files stdin stdout syscalls].
  eapply calls_since_trans; [| apply IH; exact Hl1 ]. by apply calls_since_same.
Qed.

End OperationsMenu.



(** ** What browsing leaves alone *)

Section Browsing.

Lemma keeps_syscalls_choose_directory_loop fuel current :
  keeps syscalls (choose_directory_loop fuel current).
Proof.
  revert current. induction fuel as [| fuel IH]; intros current;
    cbn [choose_directory_loop]; [frame |].
  unfold get_directories, _display_directory_menu, _handle_directory_choice. frame.
Qed.

Lemma keeps_selection_choose_directory_loop fuel current :
  keeps selected_files (choose_directory_loop fuel current).
Proof.
  revert current. induction fuel as [| fuel IH]; intros current;
    cbn [choose_directory_loop]; [frame |].
  unfold get_directories, _display_directory_menu, _handle_directory_choice. frame.
Qed.

Lemma keeps_syscalls_choose_files_loop fuel directory files :
  keeps syscalls (choose_files_loop fuel directory files).
Proof.
  induction fuel as [| fuel IH]; cbn [choose_files_loop]; [frame |].
  unfold _display_file_menu, _handle_file_choice. frame.
Qed.

Lemma keeps_syscalls_choose_files directory : keeps syscalls (choose_files directory).
Proof.
  unfold choose_files, get_files. frame.
  intros w. apply keeps_syscalls_choose_files_loop.
Qed.

End Browsing.

(** X13.  Browsing is read-only.  The navigator and the file selector ask
    nothing of the system; the navigator does not touch the list object of
    the selection; the size report asks nothing, reads no line and leaves
    both the file system and the selection as they are. *)
Theorem browsing_asks_nothing (w : World) (start_path directory : Path) :
  syscalls (choose_directory start_path w).2 = syscalls w ∧
  selected_files (choose_directory start_path w).2 = selected_files w ∧
  syscalls (choose_files directory w).2 = syscalls w ∧
  syscalls (_show_file_info w).2 = syscalls w ∧
  fs (_show_file_info w).2 = fs w ∧
  stdin (_show_file_info w).2 = stdin w ∧
  selected_files (_show_file_info w).2 = selected_files w.
Proof.
  split_and!.
  - apply keeps_syscalls_choose_directory_loop.
  - apply keeps_selection_choose_directory_loop.
  - apply keeps_syscalls_choose_files.
  - apply keeps_syscalls_show_file_info.
  - apply keeps_fs_show_file_info.
  - apply keeps_stdin_show_file_info.
  - apply keeps_selection_show_file_info.
Qed.

(** ** The size report *)

Section SizeReport.

Implicit Types (w : World) (l : list Path).

Lemma info_row_shown file acc w :
  info_row file acc w =
    match shown_size (fs w) file with
    | Ret s => (Ret (acc + size_of (fs w) file),
                mkWorld (fs w) (selected_files w) (stdin w)
                  (stdout w ++ [MsgFileInfo (name file) s]) (syscalls w))
    | Raise e => (Raise e, w)
    | OutOfFuel => (OutOfFuel, w)
    end.
Proof.
  unfold info_row, shown_size, size_of, bind, path_stat, query, lift, print, ret.
  destruct (Posix.stat (fs w) file) as [e | st]; [done |].
  by destruct (format_file_size (st_size st)).
Qed.

Lemma info_loop fuel i acc w :
  (length (selected_files w) - i < fuel)%nat →
  Forall (displayable (fs w)) (drop i (selected_files w)) →
  for_from fuel i info_row acc w =
    (Ret (acc + sum_sizes (fs w) (drop i (selected_files w))),
     mkWorld (fs w) (selected_files w) (stdin w)
       (stdout w ++ info_lines (fs w) (drop i (selected_files w)))
       (syscalls w)).
Proof.
  revert i acc w. induction fuel as [| fuel IH]; intros i acc w Hfuel Hall; [lia |].
  cbn [for_from]. destruct (selected_files w !! i) as [file |] eqn:Hi.
  - pose proof (lookup_lt_Some _ _ _ Hi) as Hlt.
    rewrite (lookup_drop_cons _ _ _ Hi) in Hall |- *.
    apply Forall_cons in Hall as [[s Hs] Hall].
    unfold bind. rewrite info_row_shown, Hs.
    rewrite IH; cbn [fs selected_files stdin stdout syscalls]; [| lia | done].
    unfold info_lines, sum_sizes. cbn. rewrite Hs. cbn.
    rewrite <- app_assoc. do 2 f_equal. lia.
  - apply lookup_ge_None in Hi. rewrite drop_ge by done.
    unfold info_lines, sum_sizes. cbn. by rewrite app_nil_r, Z.add_0_r, world_eta.
Qed.

Lemma info_loop_raises fuel i acc w :
  (length (selected_files w) - i < fuel)%nat →
  ¬ Forall (displayable (fs w)) (drop i (selected_files w)) →
  ∃ e, (for_from fuel i info_row acc w).1 = Raise e.
Proof.
  revert i acc w. induction fuel as [| fuel IH]; intros i acc w Hfuel Hnot; [lia |].
  cbn [for_from]. destruct (selected_files w !! i) as [file |] eqn:Hi.
  - pose proof (lookup_lt_Some _ _ _ Hi) as Hlt.
    rewrite (lookup_drop_cons _ _ _ Hi) in Hnot.
    unfold bind. rewrite info_row_shown.
    destruct (shown_size_cases (fs w) file) as [[s Hs] | [e He]].
    + rewrite Hs. apply IH; cbn [fs selected_files]; [lia |].
      intros Hall. apply Hnot. constructor; [by exists s | done].
    + rewrite He. eauto.
  - apply lookup_ge_None in Hi. rewrite drop_ge in Hnot by done.
    destruct Hnot. constructor.
Qed.

Lemma show_file_info_unfold :
  _show_file_info =
    (print MsgFileInformation ;;;
     total_size <- for_selected info_row 0 ;;
     shown <- lift (format_file_size total_size) ;;
     print (MsgTotalSize shown)).
Proof. reflexivity. Qed.

Lemma show_file_info_shows w :
  Forall (displayable (fs w)) (selected_files w) →
  let files := selected_files w in
  let shown := stdout w ++ [MsgFileInformation] ++ info_lines (fs w) files in
  _show_file_info w =
    match format_file_size (sum_sizes (fs w) files) with
    | Ret s => (Ret tt, mkWorld (fs w) files (stdin w) (shown ++ [MsgTotalSize s]) (syscalls w))
    | Raise e => (Raise e, mkWorld (fs w) files (stdin w) shown (syscalls w))
    | OutOfFuel => (OutOfFuel, mkWorld (fs w) files (stdin w) shown (syscalls w))
    end.
Proof.
  intros Hall files shown. subst files shown. rewrite show_file_info_unfold.
  unfold bind at 1, print at 1. unfold bind at 1, for_selected.
  rewrite info_loop; cbn [fs selected_files stdin stdout syscalls];
    [| lia | by rewrite drop_0].
  rewrite drop_0, Z.add_0_l, <- app_assoc. unfold bind, lift, print.
  by destruct (format_file_size _).
Qed.

Lemma show_file_info_raises w :
  ¬ Forall (displayable (fs w)) (selected_files w) →
  ∃ e, (_show_file_info w).1 = Raise e.
Proof.
  intros Hnot. rewrite show_file_info_unfold.
  unfold bind at 1, print at 1. unfold bind at 1, for_selected.
  cbn [fs selected_files stdin stdout syscalls].
  match goal with |- context [for_from ?n 0 info_row 0 ?w1] =>
    destruct (info_loop_raises n 0 0 w1) as [e He];
      [cbn; lia | by rewrite drop_0 |];
    destruct (for_from n 0 info_row 0 w1) as [o w2]
  end.
  cbn in He. subst o. eauto.
Qed.

End SizeReport.

(** X14.  The size report.  When every selected file can be shown it
    prints a line for each, in the order of the selection, and then the
    total: the formatted sum of the sizes [stat] gives; when that sum
    cannot be formatted the exception leaves the report after the lines.
    When some selected file cannot be shown, as when its path names nothing
    any more, the report raises. *)
Theorem show_file_info_report (w : World) :
  let files := selected_files w in
  let shown := stdout w ++ [MsgFileInformation] ++ info_lines (fs w) files in
  (Forall (displayable (fs w)) files →
   _show_file_info w =
     match format_file_size (sum_sizes (fs w) files) with
     | Ret s => (Ret tt, mkWorld (fs w) files (stdin w) (shown ++ [MsgTotalSize s]) (syscalls w))
     | Raise e => (Raise e, mkWorld (fs w) files (stdin w) shown (syscalls w))
     | OutOfFuel => (OutOfFuel, mkWorld (fs w) files (stdin w) shown (syscalls w))
     end) ∧
  (¬ Forall (displayable (fs w)) files → ∃ e, (_show_file_info w).1 = Raise e).
Proof.
  intros files shown. split; [apply show_file_info_shows | apply show_file_info_raises].
Qed.

Lemma show_file_info_report_witness :
  _show_file_info (mkWorld demo_tree [demo_a; demo_b; demo_c] [] [] []) =
    (Ret tt,
     mkWorld demo_tree [demo_a; demo_b; demo_c] []
       [MsgFileInformation; MsgFileInfo "a" "10.0 B"; MsgFileInfo "b" "2.0 KB";
        MsgFileInfo "c" "5.0 B"; MsgTotalSize "2.0 KB"] []) ∧
  ∃ e, (_show_file_info (mkWorld (delete demo_b demo_tree) [demo_a; demo_b; demo_c] [] [] [])).1
       = Raise e.
Proof.
  split.
  - destruct (show_file_info_report (mkWorld demo_tree [demo_a; demo_b; demo_c] [] [] []))
      as [Hshown _].
    rewrite Hshown.
    + vm_compute. reflexivity.
    + repeat constructor; eexists; vm_compute; reflexivity.
  - destruct (show_file_info_report
                (mkWorld (delete demo_b demo_tree) [demo_a; demo_b; demo_c] [] [] []))
      as [_ Hraises].
    apply Hraises. intros Hall.
    apply Forall_cons in Hall as [_ Hall]. apply Forall_cons in Hall as [[s Hs] _].
    vm_compute in Hs. discriminate.
Defined.

(** ** The loops end *)

(** X15.  The loops end.  With the lines there are to read, none of the
    navigator, the file selector, the three operations and the operations
    menu goes round forever: each returns or raises. *)
Theorem menus_end (w : World) (start_path directory : Path) :
  (choose_directory start_path w).1 ≠ OutOfFuel ∧
  (choose_files directory w).1 ≠ OutOfFuel ∧
  (rename_files w).1 ≠ OutOfFuel ∧
  (delete_files w).1 ≠ OutOfFuel ∧
  (_show_file_info w).1 ≠ OutOfFuel ∧
  (_run_operations_menu w).1 ≠ OutOfFuel.
Proof.
  split_and!.
  - apply total_choose_directory.
  - apply total_choose_files.
  - apply total_rename_files.
  - apply total_delete_files.
  - apply total_show_file_info.
  - apply total_run_operations_menu.
Qed.

Section EndOfInput.

Variable w : World.
Hypothesis no_line : stdin w = [].

Lemma get_directories_keeps_stdin path : keeps stdin (get_directories path).
Proof. unfold get_directories. frame. Qed.

Lemma display_directory_menu_eof current directories w1 :
  stdin w1 = [] → (_display_directory_menu current directories w1).1 = Raise EOFError.
Proof.
  intros Hin. unfold _display_directory_menu.
  unfold bind at 1, print at 1. unfold bind at 1, print at 1.
  unfold bind at 1.
  set (w2 := mkWorld _ _ _ _ _).
  assert (Hw2 : stdin w2 = []) by done. clearbody w2.
  assert (Hrows : ∀ (l : list Path) i w3, stdin w3 = [] →
    ∃ w4, for_enumerate i l (λ i directory, print (MsgDirEntry i (name directory))) w3 =
            (Ret tt, w4) ∧ stdin w4 = []).
  { induction l as [| d l IH]; intros i w3 H3; cbn [for_enumerate].
    - by exists w3.
    - unfold bind at 1, print at 1. by apply IH. }
  assert (Hmid : ∃ w4,
    (match directories with
     | [] => print MsgNoSubdirs
     | _ => for_enumerate 1 directories (λ i directory, print (MsgDirEntry i (name directory)))
     end) w2 = (Ret tt, w4) ∧ stdin w4 = []).
  { destruct directories as [| d l]; [by eexists | by apply Hrows]. }
  destruct Hmid as (w4 & -> & H4).
  unfold bind, print, input. cbn [fs selected_files stdin stdout syscalls].
  by rewrite H4.
Qed.

Lemma choose_directory_eof start_path directories :
  (get_directories start_path w).1 = Ret directories →
  (choose_directory start_path w).1 = Raise EOFError.
Proof using no_line.
  intros Hret. unfold choose_directory. rewrite no_line. cbn [length choose_directory_loop].
  unfold bind at 1.
  pose proof (get_directories_keeps_stdin start_path w) as Hk. cbn beta in Hk.
  destruct (get_directories start_path w) as [o w1]. cbn in Hret, Hk. subst o.
  rewrite no_line in Hk. unfold bind at 1.
  pose proof (display_directory_menu_eof start_path directories w1 Hk) as Heof.
  destruct (_display_directory_menu start_path directories w1) as [o w2].
  cbn in Heof. by subst o.
Qed.

Lemma operations_menu_eof : (_run_operations_menu w).1 = Raise EOFError.
Proof using no_line.
  unfold _run_operations_menu. rewrite no_line. cbn [length operations_loop].
  unfold bind, print, input. cbn [fs selected_files stdin stdout syscalls].
  by rewrite no_line.
Qed.

Lemma rename_files_eof :
  selected_files w ≠ [] →
  (rename_files w).1 = Raise EOFError ∧ syscalls (rename_files w).2 = syscalls w.
Proof using no_line.
  intros Hne.
  assert (H : ∃ w', rename_files w = (Raise EOFError, w') ∧ syscalls w' = syscalls w).
  { unfold rename_files. unfold bind at 1, selected at 1.
    destruct (selected_files w) as [| f l] eqn:Hsel; [done |].
    unfold bind at 1, print at 1. unfold for_selected.
    cbn [fs selected_files stdin stdout syscalls length for_from]. rewrite Hsel.
    cbn [lookup list_lookup]. unfold bind at 1. unfold rename_one.
    unfold bind at 1, print at 1. unfold bind at 1, input at 1.
    cbn [fs selected_files stdin stdout syscalls]. rewrite no_line.
    eexists. split; [reflexivity | done]. }
  by destruct H as (w' & -> & H).
Qed.

Lemma delete_files_eof :
  selected_files w ≠ [] → Forall (displayable (fs w)) (selected_files w) →
  (delete_files w).1 = Raise EOFError ∧ syscalls (delete_files w).2 = syscalls w.
Proof using no_line.
  intros Hne Hall. rewrite delete_files_asks by done.
  unfold bind, input. cbn [fs selected_files stdin stdout syscalls].
  by rewrite no_line.
Qed.

End EndOfInput.

(** X16.  The end of the input is handled nowhere.  With no line left the
    operations menu raises [EOFError] at its prompt; so do the navigator
    once the directory has been listed, [rename_files] at its first file
    and [delete_files] at its question, the last two without having asked
    anything of the system. *)
Theorem end_of_input (w : World) (start_path : Path) (directories : list Path) :
  stdin w = [] →
  (_run_operations_menu w).1 = Raise EOFError ∧
  ((get_directories start_path w).1 = Ret directories →
   (choose_directory start_path w).1 = Raise EOFError) ∧
  (selected_files w ≠ [] →
   (rename_files w).1 = Raise EOFError ∧ syscalls (rename_files w).2 = syscalls w) ∧
  (selected_files w ≠ [] → Forall (displayable (fs w)) (selected_files w) →
   (delete_files w).1 = Raise EOFError ∧ syscalls (delete_files w).2 = syscalls w).
Proof.
  intros Hin. split_and!.
  - by apply operations_menu_eof.
  - intros Hret. by eapply choose_directory_eof.
  - intros Hne. by apply rename_files_eof.
  - intros Hne Hall. by apply delete_files_eof.
Qed.

Lemma end_of_input_witness :
  (_run_operations_menu (mkWorld demo_tree [demo_a] [] [] [])).1 = Raise EOFError ∧
  (choose_directory ["d"%string] (mkWorld demo_tree [demo_a] [] [] [])).1 = Raise EOFError ∧
  (rename_files (mkWorld demo_tree [demo_a] [] [] [])).1 = Raise EOFError ∧
  (delete_files (mkWorld demo_tree [demo_a] [] [] [])).1 = Raise EOFError.
Proof.
  destruct (end_of_input (mkWorld demo_tree [demo_a] [] [] []) ["d"%string] [])
    as (Hmenu & Hdir & Hren & Hdel); [reflexivity |].
  split_and!.
  - exact Hmenu.
  - apply Hdir. vm_compute. reflexivity.
  - apply Hren. discriminate.
  - apply Hdel; [discriminate |].
    repeat constructor; eexists; vm_compute; reflexivity.
Defined.

(** ** A rename that goes through, and one that cannot *)

Section RenameInPlace.

Lemma parent_name (file : Path) : file ≠ [] → parent file ++ [name file] = file.
Proof.
  unfold parent, name. induction file as [| c file IH]; [done |]. intros _.
  destruct file as [| c' file]; [done |].
  change (c :: (removelast (c' :: file) ++ [default EmptyString (last (c' :: file))]) =
          c :: c' :: file).
  f_equal. by apply IH.
Qed.

Lemma parent_snoc (d : Path) (n : string) : parent (d ++ [n]) = d.
Proof. unfold parent. apply removelast_last. Qed.

Lemma canonical_parent (file : Path) : ".."%string ∉ file → ".."%string ∉ parent file.
Proof.
  destruct (decide (file = [])) as [-> | Hne]; [done |].
  intros H. rewrite <- (parent_name file Hne) in H.
  by apply not_elem_of_app in H as [H _].
Qed.

Lemma not_prefix_sibling (file : Path) (n : string) :
  file ≠ [] → file ≠ parent file ++ [n] → ¬ file `prefix_of` parent file ++ [n].
Proof.
  intros Hne Hdiff [k Hk]. apply Hdiff.
  assert (Hlen : length (parent file ++ [n]) = length (file ++ k)) by by rewrite Hk.
  rewrite <- (parent_name file Hne) in Hlen at 2.
  rewrite !length_app in Hlen. cbn in Hlen.
  destruct k; [by rewrite app_nil_r in Hk | cbn in Hlen; lia].
Qed.

Variables (file : Path) (w : World) (t : typed) (rest : list typed).
Hypothesis typed_next : stdin w = t :: rest.

Let new_name := Str.strip (text t).
Let now : FS := meanwhile t (fs w).
Let asked : list Msg := stdout w ++ [MsgCurrent (name file); MsgPrompt PromptNewName].

Lemma rename_one_moves (i pd : inode) :
  file ≠ [] → (".."%string ∉ file) →
  new_name ≠ EmptyString → new_name ≠ "."%string → new_name ≠ ".."%string →
  _validate_filename new_name = true →
  now !! file = Some i → is_dir_kind (kind i) = false →
  now !! parent file = Some pd → kind pd = S_IFDIR → writable pd = true →
  now !! (parent file ++ [new_name]) = None →
  rename_one file w =
    (Ret tt,
     mkWorld (<[parent file ++ [new_name] := i]> (delete file now))
       (selected_files w) rest (asked ++ [MsgRenamedTo new_name])
       (syscalls w ++ [SysRename file (parent file ++ [new_name]) true])).
Proof using typed_next.
  unfold new_name, now, asked. intros Hne Hcan Hn Hdot Hdots Hvalid Hfile Hkind Hpd Hdir Hw Hfree.
  assert (Hjoin : joinpath (parent file) (Str.strip (text t)) = parent file ++ [(Str.strip (text t))])
    by (unfold joinpath; by rewrite decide_False).
  assert (Hcan' : ".."%string ∉ parent file ++ [(Str.strip (text t))]).
  { apply not_elem_of_app. split; [by apply canonical_parent |].
    intros H%list_elem_of_singleton. by apply Hdots. }
  rewrite <- Hjoin.
  apply (rename_one_renames file w t rest typed_next); [done | done | |].
  - rewrite Hjoin. unfold path_exists, Posix.stat. cbn [Posix.follow].
    rewrite lstat_canonical by done. by rewrite Hfree.
  - rewrite Hjoin. unfold Posix.rename, Posix.resolve.
    rewrite !resolve_from_canonical by done. cbn [app].
    rewrite Hfile, parent_snoc, Hpd, Hdir. cbn [is_dir_kind negb].
    unfold Posix.dir_writable. rewrite Hpd, Hw. cbn [andb negb].
    rewrite decide_False by (intros Heq; rewrite <- Heq in Hfree; congruence).
    rewrite decide_False
      by (apply not_prefix_sibling; [done |];
          intros Heq; rewrite <- Heq in Hfree; congruence).
    rewrite Hfree. unfold Posix.move. by rewrite Hkind.
Qed.

Lemma rename_one_same_name :
  file ≠ [] → new_name = name file →
  new_name ≠ EmptyString → new_name ≠ "."%string → _validate_filename new_name = true →
  path_exists now file = true →
  rename_one file w =
    (Ret tt,
     mkWorld now (selected_files w) rest (asked ++ [MsgAlreadyExists new_name])
       (syscalls w)).
Proof using typed_next.
  unfold new_name, now, asked. intros Hne Hsame Hn Hdot Hvalid Hthere.
  destruct (rename_one_skips file w t rest typed_next) as (_ & _ & Hskip & _).
  apply Hskip; [done | done |].
  unfold joinpath. rewrite decide_False by done.
  by rewrite Hsame, parent_name.
Qed.

End RenameInPlace.



(** X18.  Typing the name a file already has never renames it: the
    destination is the file itself, which exists, so the file is passed
    over with the already-exists message and nothing is asked of the
    system. *)
Theorem rename_to_own_name_skips (file : Path) (w : World) (t : typed) (rest : list typed) :
  let now := meanwhile t (fs w) in
  stdin w = t :: rest →
  file ≠ [] → Str.strip (text t) = name file →
  name file ≠ EmptyString → name file ≠ "."%string → _validate_filename (name file) = true →
  path_exists now file = true →
  rename_one file w =
    (Ret tt,
     mkWorld now (selected_files w) rest
       (stdout w ++ [MsgCurrent (name file); MsgPrompt PromptNewName;
                     MsgAlreadyExists (name file)])
       (syscalls w)).
Proof.
  intros now Hin Hne Hsame Hn Hdot Hvalid Hthere.
  rewrite (rename_one_same_name file w t rest Hin) by (by rewrite ?Hsame).
  by rewrite Hsame, <- app_assoc.
Qed.

Lemma rename_to_own_name_skips_witness :
  rename_one demo_a (mkWorld demo_tree [demo_a] [quiet "a"] [] []) =
    (Ret tt,
     mkWorld demo_tree [demo_a] []
       [MsgCurrent "a"; MsgPrompt PromptNewName; MsgAlreadyExists "a"] []).
Proof.
  apply (rename_to_own_name_skips demo_a (mkWorld demo_tree [demo_a] [quiet "a"] [] [])
           (quiet "a") []).
  - reflexivity.
  - discriminate.
  - reflexivity.
  - discriminate.
  - discriminate.
  - reflexivity.
  - vm_compute. reflexivity.
Defined.

(** ** The size formatter at its edges *)

Section FormatterEdges.

Lemma round_up_to_unit n :
  1048525 ≤ n < 1048576 → Num.round_half_even (10 * n) 1024 = 10240.
Proof.
  intros Hn. unfold Num.round_half_even. cbv zeta.
  pose proof (Z.div_mod (10 * n) 1024 ltac:(lia)) as Hdm.
  pose proof (Z.mod_pos_bound (10 * n) 1024 ltac:(lia)) as Hb.
  assert (Hq : 10 * n / 1024 = 10239).
  { symmetry. apply Z.div_unique with (r := 10 * n - 10239 * 1024); lia. }
  rewrite Hq in *.
  destruct (Z.ltb_spec (2 * ((10 * n) mod 1024)) 1024); [lia |].
  destruct (Z.ltb_spec 1024 (2 * ((10 * n) mod 1024))); [lia | lia].
Qed.

Lemma format_file_size_boundary n :
  1048525 ≤ n < 1048576 → format_file_size n = Ret "1024.0 KB"%string.
Proof.
  intros Hn. rewrite format_file_size_exact by lia.
  unfold spec_format_file_size. cbn [spec_scale].
  destruct (Z.ltb_spec n (1024 * 1)); [lia |].
  destruct (Z.ltb_spec n (1024 * (1 * 1024))); [| lia].
  by rewrite round_up_to_unit.
Qed.

Lemma append_assoc (a b c : string) : ((a +:+ b) +:+ c = a +:+ (b +:+ c))%string.
Proof. induction a as [| x a IH]; [done |]. change (String x ((a +:+ b) +:+ c) = String x (a +:+ (b +:+ c)))%string. by f_equal. Qed.

Lemma format_file_size_negative n :
  - 2 ^ 53 < n < 0 →
  format_file_size n = Ret ("-" +:+ Str.of_Z (- n) +:+ ".0 B")%string.
Proof.
  intros Hn. unfold format_file_size. cbn [format_loop Num.lt_kb]. unfold BYTES_PER_KB.
  destruct (Z.ltb_spec n 1024); [| lia].
  unfold format_with_unit, Num.format_1f.
  rewrite fl53_small by lia.
  destruct (Z.leb_spec (2 ^ 1024) (Z.abs n)) as [Hbig | _].
  { assert (2 ^ 53 < 2 ^ 1024) by (apply Z.pow_lt_mono_r; lia). lia. }
  destruct (Z.ltb_spec n 0); [| lia].
  unfold Num.render_tenths.
  rewrite Z.abs_neq by lia.
  replace (10 * - n / 10) with (- n) by (apply Z.div_unique with (r := 0); lia).
  replace ((10 * - n) mod 10) with 0 by (apply Z.mod_unique with (q := - n); lia).
  by rewrite !append_assoc.
Qed.

End FormatterEdges.

(** X19.  Two edges of [format_file_size].  The unit is chosen before the
    value is rounded: a count within 51 bytes below 1024 * 1024 is shown as
    1024.0 KB, not as 1.0 MB.  A negative count is never scaled: it is shown
    in B whatever its magnitude. *)
Theorem format_file_size_edges :
  (∀ n, 1048525 ≤ n < 1048576 → format_file_size n = Ret "1024.0 KB"%string) ∧
  (∀ n, - 2 ^ 53 < n < 0 →
        format_file_size n = Ret ("-" +:+ Str.of_Z (- n) +:+ ".0 B")%string).
Proof. split; [apply format_file_size_boundary | apply format_file_size_negative]. Qed.

Lemma format_file_size_edges_witness :
  format_file_size 1048575 = Ret "1024.0 KB"%string ∧
  format_file_size (-2048) = Ret "-2048.0 B"%string.
Proof.
  destruct format_file_size_edges as [Hup Hneg]. split.
  - apply Hup. lia.
  - apply (Hneg (-2048)). lia.
Defined.
